(** * VersionVisualizer: the version resolver ([src/js/versionResolver.js])

    A shallow embedding of [resolveVersion], [baseResult] and
    [buildExplanation], first as pure functions over version records, then
    (module [Store]) over an explicit object store, where arrays hold
    references, [sort] works in place on a copy and every literal and
    [filter] allocates. *)

From Stdlib Require Import ZArith List String Ascii Permutation Sorted Lia Bool.
From Stdlib Require Import DecimalString.
From stdpp Require Import base list sorting strings pretty gmap.

Open Scope string_scope.
Open Scope list_scope.
Open Scope Z_scope.

(** ** Values and records *)

(** The JavaScript values an untyped argument or property can hold.
    Numbers are the integers and NaN; every object is [JObject]. *)
Inductive js_value :=
  | JUndefined
  | JNull
  | JBool (b : bool)
  | JNum (z : Z)
  | JNaN
  | JStr (s : string)
  | JObject.

(** ToBoolean, as applied by [c ? a : b] and [!x]. *)
Definition truthy (v : js_value) : bool :=
  match v with
  | JUndefined | JNull | JNaN => false
  | JBool b => b
  | JNum z => negb (z =? 0)
  | JStr s => negb (String.eqb s EmptyString)
  | JObject => true
  end.

(** [v !== false]. *)
Definition strict_ne_false (v : js_value) : bool :=
  match v with
  | JBool false => false
  | _ => true
  end.

(** A version record: [{version, publishDate, open, close}], the three
    instants in integer milliseconds. *)
Record VersionRecord := {
  version : string;
  publishDate : Z;
  open : Z;
  close : Z
}.

(** The [versions] argument: an array of records, or any other value. *)
Inductive versions_arg :=
  | VArray (l : list VersionRecord)
  | VNotArray (v : js_value).

(** [purchaseDate] and [travelDate]: milliseconds or a [Date]. *)
Inductive instant_arg :=
  | Millis (ms : Z)
  | DateObj (time : Z).

(** [d instanceof Date ? d.getTime() : d]. *)
Definition normalize (d : instant_arg) : Z :=
  match d with
  | Millis ms => ms
  | DateObj time => time
  end.

(** The [options] object; an absent [inclusiveEnd] reads as [JUndefined]. *)
Record ResolveOptions := { inclusiveEnd : js_value }.

(** [{}], the default of the [options] parameter. *)
Definition empty_options : ResolveOptions := {| inclusiveEnd := JUndefined |}.

Inductive Reason := OK | NO_AVAILABLE_VERSIONS | NO_VERSION_COVERS_TRAVEL_DATE.

(** The result object; the fields carry the prefix [r_] ([match] is a
    keyword), and [r_options] is the [inclusiveEnd] of its [options]. *)
Record ResolutionResult := {
  r_match : option VersionRecord;
  r_reason : Reason;
  r_candidates : list VersionRecord;
  r_available : list VersionRecord;
  r_futureCovering : list VersionRecord;
  r_purchaseDate : Z;
  r_travelDate : Z;
  r_options : bool;
  r_explanation : string
}.

(** The host's [new Date(d).toLocaleDateString()]. *)
Class Locale := toLocaleDateString : Z -> string.


(** ** The resolver *)

(** [sort((a, b) => key(a) - key(b))]: the stable ascending sort by an
    integer key.  An element goes in front of the first element whose key is
    not smaller, so elements with equal keys keep their input order. *)
Section SortBy.
Context {A : Type} (key : A -> Z).

Fixpoint insert_by (x : A) (l : list A) : list A :=
  match l with
  | [] => [x]
  | y :: l' => if key x <=? key y then x :: y :: l' else y :: insert_by x l'
  end.

Definition sort_by (l : list A) : list A := fold_right insert_by [] l.

End SortBy.

(** [inRange]: the closure over [inclusiveEnd] and [t]. *)
Definition inRange (inclusiveEnd : js_value) (t : Z) (v : VersionRecord) : bool :=
  if truthy inclusiveEnd
  then (open v <=? t) && (t <=? close v)
  else (open v <=? t) && (t <? close v).

(** The callback of [candidates.reduce(..., null)]. *)
Definition pick_newer (acc : option VersionRecord) (cur : VersionRecord)
  : option VersionRecord :=
  match acc with
  | None => Some cur
  | Some a =>
      if publishDate a <? publishDate cur then Some cur
      else if (publishDate cur =? publishDate a) && (open a <? open cur)
           then Some cur
           else Some a
  end.

Definition baseResult (m : option VersionRecord)
    (candidates available futureCovering : list VersionRecord)
    (purchaseDate travelDate : Z) (options : ResolveOptions)
    (reason : Reason) (explanation : string) : ResolutionResult :=
  {| r_match := m;
     r_reason := reason;
     r_candidates := candidates;
     r_available := available;
     r_futureCovering := futureCovering;
     r_purchaseDate := purchaseDate;
     r_travelDate := travelDate;
     r_options := strict_ne_false (inclusiveEnd options);
     r_explanation := explanation |}.

(** [const { inclusiveEnd = true } = options]: the default replaces
    [undefined] only. *)
Definition destructure_inclusiveEnd (options : ResolveOptions) : js_value :=
  match inclusiveEnd options with
  | JUndefined => JBool true
  | v => v
  end.

(** [${xs.length}] and [${xs.length - 1}]: a count in decimal. *)
Definition show_count (n : nat) : string := pretty n.

Section Resolver.
Context `{fmt : Locale}.

(** [if (futureCovering.length > 0) { const f = futureCovering[futureCovering.length - 1]; ... }]
    is the match on [last futureCovering]: the array has a last element
    exactly when its length is positive. *)
Definition buildExplanation (m : option VersionRecord)
    (candidates available futureCovering : list VersionRecord)
    (purchaseDate travelDate : Z) (reason : Reason) (inclusiveEnd : js_value)
  : string :=
  let pStr := fmt purchaseDate in
  let tStr := fmt travelDate in
  let endWord := if truthy inclusiveEnd then "inkludert" else "eksklusiv" in
  match reason with
  | NO_AVAILABLE_VERSIONS =>
      "Ingen versjoner var publisert på kjøpsdato " +:+ pStr
        +:+ ". Første publisering er senere enn kjøpsdato."
  | NO_VERSION_COVERS_TRAVEL_DATE =>
      let base :=
        "Det fantes " +:+ show_count (length available)
          +:+ " publiserte versjon(er) på kjøpsdato " +:+ pStr
          +:+ ", men ingen hadde en gyldighetsperiode som dekker reisedato "
          +:+ tStr +:+ ". (Sluttdato er " +:+ endWord +:+ ")." in
      match last futureCovering with
      | Some f =>
          base +:+ " En nyere versjon (" +:+ version f +:+ ", publisert "
            +:+ fmt (publishDate f)
            +:+ ") ville ha dekket reisedatoen men var ikke tilgjengelig ved kjøp."
      | None => base
      end
  | OK =>
      match m with
      | Some mt =>
          let pub := fmt (publishDate mt) in
          let open_ := fmt (open mt) in
          let close_ := fmt (close mt) in
          let expl :=
            version mt +:+ " fordi den var publisert (" +:+ pub
              +:+ " er før kjøpsdato " +:+ pStr +:+ ") og reisedato " +:+ tStr
              +:+ " ligger innenfor gyldighetsperioden " +:+ open_ +:+ " – "
              +:+ close_ +:+ " (" +:+ endWord +:+ " slutt)." in
          let expl :=
            if (1 <? length candidates)%nat
            then expl +:+ " Det fantes " +:+ show_count (length candidates - 1)
                   +:+ " annen/andre eldre kandidat(er) som også dekket reisedatoen, men "
                   +:+ version mt +:+ " er nyere (senere publishDate)."
            else expl in
          match last futureCovering with
          | Some latestFuture =>
              expl +:+ " En senere versjon (" +:+ version latestFuture
                +:+ ", publisert " +:+ fmt (publishDate latestFuture)
                +:+ ") ville også dekke reisedatoen men var ikke publisert på kjøpsdato."
          | None => expl
          end
      | None => ""
      end
  end.

Definition resolveVersion (versions : versions_arg)
    (purchaseDate travelDate : instant_arg) (options : option ResolveOptions)
  : ResolutionResult :=
  let options := default empty_options options in
  let inclusiveEnd := destructure_inclusiveEnd options in
  let p := normalize purchaseDate in
  let t := normalize travelDate in
  match versions with
  | VNotArray _ | VArray [] =>
      baseResult None [] [] [] p t options NO_AVAILABLE_VERSIONS
        (buildExplanation None [] [] [] p t NO_AVAILABLE_VERSIONS inclusiveEnd)
  | VArray versions =>
      let sorted := sort_by publishDate versions in
      let available := List.filter (fun v => publishDate v <=? p) sorted in
      let futureCovering :=
        List.filter (fun v => (p <? publishDate v) && inRange inclusiveEnd t v)
          sorted in
      match available with
      | [] =>
          baseResult None [] available futureCovering p t options
            NO_AVAILABLE_VERSIONS
            (buildExplanation None [] available futureCovering p t
               NO_AVAILABLE_VERSIONS inclusiveEnd)
      | _ :: _ =>
          let candidates := List.filter (inRange inclusiveEnd t) available in
          match candidates with
          | [] =>
              baseResult None candidates available futureCovering p t options
                NO_VERSION_COVERS_TRAVEL_DATE
                (buildExplanation None candidates available futureCovering p t
                   NO_VERSION_COVERS_TRAVEL_DATE inclusiveEnd)
          | _ :: _ =>
              let m := fold_left pick_newer candidates None in
              baseResult m candidates available futureCovering p t options OK
                (buildExplanation m candidates available futureCovering p t
                   OK inclusiveEnd)
          end
      end
  end.

(** [r.match ? r.match.version : null]. *)
Definition resolveVersionName (versions : versions_arg)
    (purchaseDate travelDate : instant_arg) (options : option ResolveOptions)
  : option string :=
  let r := resolveVersion versions purchaseDate travelDate options in
  match r_match r with
  | Some m => Some (version m)
  | None => None
  end.

End Resolver.

(** A locale for running the resolver: the milliseconds in decimal. *)
Definition decimal_locale : Locale := fun d => pretty d.

(** ** Sample records *)

Definition v1 : VersionRecord :=
  {| version := "v1"; publishDate := 100; open := 100; close := 200 |}.
Definition v2 : VersionRecord :=
  {| version := "v2"; publishDate := 150; open := 100; close := 200 |}.


(** A record published later, for a later window. *)
Definition v3 : VersionRecord :=
  {| version := "v3"; publishDate := 300; open := 250; close := 400 |}.

(** [{ inclusiveEnd: b }]. *)
Definition with_inclusiveEnd (v : js_value) : option ResolveOptions :=
  Some {| inclusiveEnd := v |}.


(** ** The resolver over an object store *)

(** Objects live in a store and are passed by reference: the caller's array
    holds references to its records, [[...versions]], [filter] and every
    literal allocate, [sort] overwrites the copy it is called on, and the
    arrays of the result hold the caller's references. *)
Module Store.

(** References are positions in the store. *)
Abbreviation loc := nat.

(** A result object; its arrays and its options object are references. *)
Record ResultObject := {
  o_match : option loc;   (* null, or the selected record *)
  o_reason : Reason;
  o_candidates : loc;
  o_available : loc;
  o_futureCovering : loc;
  o_purchaseDate : Z;
  o_travelDate : Z;
  o_options : loc;
  o_explanation : string
}.

Inductive cell :=
  | CRecord (v : VersionRecord)
  | CArray (elems : list loc)
  | COptions (inclusiveEnd : bool)
  | CResult (r : ResultObject).

Abbreviation store := (list cell).

(** An argument: a reference into the store, or a value that is not one. *)
Inductive value :=
  | Ref (l : loc)
  | Prim (v : js_value).

(** A reference together with the record read through it. *)
Abbreviation object := (nat * VersionRecord)%type.

(** Computations on the store; [None] when an element of [versions] is not
    a version record, which the embedding does not follow further. *)
Definition M (A : Type) : Type := store -> option (A * store).

Definition bind {A B : Type} (m : M A) (k : A -> M B) : M B :=
  fun h =>
    match m h with
    | Some (a, h') => k a h'
    | None => None
    end.

Notation "'let*' x := m 'in' k" := (bind m (fun x => k))
  (at level 10, x name, m at level 100, k at level 200).

(** A new object. *)
Definition alloc (c : cell) : M loc := fun h => Some (length h, h ++ [c]).

(** Overwrite an object in place. *)
Definition assign (l : loc) (c : cell) : M unit :=
  fun h => if decide (l < length h)%nat then Some (tt, <[l := c]> h) else None.

(** The elements when [Array.isArray(v)], [None] otherwise. *)
Definition array_elements (v : value) : M (option (list loc)) :=
  fun h =>
    match v with
    | Ref l =>
        match h !! l with
        | Some (CArray elems) => Some (Some elems, h)
        | _ => Some (None, h)
        end
    | Prim _ => Some (None, h)
    end.

Definition deref (h : store) (l : loc) : option VersionRecord :=
  match h !! l with
  | Some (CRecord v) => Some v
  | _ => None
  end.

(** The fields behind each reference of an array of records. *)
Definition objects (elems : list loc) : M (list object) :=
  fun h =>
    match mapM (fun l => pair l <$> deref h l) elems with
    | Some objs => Some (objs, h)
    | None => None
    end.

Definition pick_newer (acc : option object) (cur : object) : option object :=
  match acc with
  | None => Some cur
  | Some a =>
      if publishDate a.2 <? publishDate cur.2 then Some cur
      else if (publishDate cur.2 =? publishDate a.2) && (open a.2 <? open cur.2)
           then Some cur
           else Some a
  end.

Definition baseResult (m : option loc)
    (candidates available futureCovering : loc)
    (purchaseDate travelDate : Z) (options : ResolveOptions)
    (reason : Reason) (explanation : string) : M loc :=
  let* o := alloc (COptions (strict_ne_false (inclusiveEnd options))) in
  alloc (CResult {| o_match := m;
                    o_reason := reason;
                    o_candidates := candidates;
                    o_available := available;
                    o_futureCovering := futureCovering;
                    o_purchaseDate := purchaseDate;
                    o_travelDate := travelDate;
                    o_options := o;
                    o_explanation := explanation |}).

Section Resolver.
Context `{fmt : Locale}.

Definition resolveVersion (versions : value)
    (purchaseDate travelDate : instant_arg) (options : option ResolveOptions)
  : M loc :=
  let options := default empty_options options in
  let inclusiveEnd := destructure_inclusiveEnd options in
  let p := normalize purchaseDate in
  let t := normalize travelDate in
  let* elems := array_elements versions in
  match elems with
  | None | Some [] =>
      let* candidates := alloc (CArray []) in
      let* available := alloc (CArray []) in
      let* futureCovering := alloc (CArray []) in
      (* the three literals handed to buildExplanation *)
      let* _ := alloc (CArray []) in
      let* _ := alloc (CArray []) in
      let* _ := alloc (CArray []) in
      baseResult None candidates available futureCovering p t options
        NO_AVAILABLE_VERSIONS
        (buildExplanation None [] [] [] p t NO_AVAILABLE_VERSIONS inclusiveEnd)
  | Some elems =>
      let* objs := objects elems in
      (* [...versions], then sort() in place on the copy *)
      let* sorted := alloc (CArray elems) in
      let sorted_objs := sort_by (fun o : object => publishDate o.2) objs in
      let* _ := assign sorted (CArray sorted_objs.*1) in
      let available_objs :=
        List.filter (fun o : object => publishDate o.2 <=? p) sorted_objs in
      let* available := alloc (CArray available_objs.*1) in
      let future_objs :=
        List.filter
          (fun o : object => (p <? publishDate o.2) && inRange inclusiveEnd t o.2)
          sorted_objs in
      let* futureCovering := alloc (CArray future_objs.*1) in
      match available_objs with
      | [] =>
          let* candidates := alloc (CArray []) in
          let* _ := alloc (CArray []) in
          baseResult None candidates available futureCovering p t options
            NO_AVAILABLE_VERSIONS
            (buildExplanation None [] available_objs.*2 future_objs.*2 p t
               NO_AVAILABLE_VERSIONS inclusiveEnd)
      | _ :: _ =>
          let candidate_objs :=
            List.filter (fun o : object => inRange inclusiveEnd t o.2)
              available_objs in
          let* candidates := alloc (CArray candidate_objs.*1) in
          match candidate_objs with
          | [] =>
              baseResult None candidates available futureCovering p t options
                NO_VERSION_COVERS_TRAVEL_DATE
                (buildExplanation None candidate_objs.*2 available_objs.*2
                   future_objs.*2 p t NO_VERSION_COVERS_TRAVEL_DATE inclusiveEnd)
          | _ :: _ =>
              let m := fold_left pick_newer candidate_objs None in
              baseResult (fst <$> m) candidates available futureCovering p t
                options OK
                (buildExplanation (snd <$> m) candidate_objs.*2
                   available_objs.*2 future_objs.*2 p t OK inclusiveEnd)
          end
      end
  end.

End Resolver.

(** *** Reading a store back *)

Definition read_array (h : store) (l : loc) : option (list VersionRecord) :=
  match h !! l with
  | Some (CArray elems) => mapM (deref h) elems
  | _ => None
  end.

(** The [versions] argument as the pure resolver sees it; [None] for an
    array with an element that is not a record, or a reference to nothing. *)
Definition read_versions (h : store) (v : value) : option versions_arg :=
  match v with
  | Ref l =>
      match h !! l with
      | Some (CArray elems) => VArray <$> mapM (deref h) elems
      | Some _ => Some (VNotArray JObject)
      | None => None
      end
  | Prim x => Some (VNotArray x)
  end.

Definition read_result (h : store) (l : loc) : option ResolutionResult :=
  match h !! l with
  | Some (CResult o) =>
      match read_array h (o_candidates o), read_array h (o_available o),
            read_array h (o_futureCovering o), h !! o_options o with
      | Some candidates, Some available, Some futureCovering,
        Some (COptions b) =>
          match o_match o with
          | Some lm =>
              match deref h lm with
              | Some m =>
                  Some {| r_match := Some m;
                          r_reason := o_reason o;
                          r_candidates := candidates;
                          r_available := available;
                          r_futureCovering := futureCovering;
                          r_purchaseDate := o_purchaseDate o;
                          r_travelDate := o_travelDate o;
                          r_options := b;
                          r_explanation := o_explanation o |}
              | None => None
              end
          | None =>
              Some {| r_match := None;
                      r_reason := o_reason o;
                      r_candidates := candidates;
                      r_available := available;
                      r_futureCovering := futureCovering;
                      r_purchaseDate := o_purchaseDate o;
                      r_travelDate := o_travelDate o;
                      r_options := b;
                      r_explanation := o_explanation o |}
          end
      | _, _, _, _ => None
      end
  | _ => None
  end.

(** The references a result holds: its arrays, its options object, and the
    elements of its arrays and its match. *)
Definition result_arrays (o : ResultObject) : list loc :=
  [o_candidates o; o_available o; o_futureCovering o; o_options o].

Definition array_at (h : store) (l : loc) : list loc :=
  match h !! l with
  | Some (CArray elems) => elems
  | _ => []
  end.

Definition result_elements (h : store) (o : ResultObject) : list loc :=
  array_at h (o_candidates o) ++ array_at h (o_available o)
    ++ array_at h (o_futureCovering o)
    ++ match o_match o with Some lm => [lm] | None => [] end.

(** An object pairs a reference with the record behind it. *)
Definition reads (h : store) (o : object) : Prop := deref h o.1 = Some o.2.

(** The references in the caller's array. *)
Definition value_elements (h : store) (v : value) : list loc :=
  match v with
  | Ref l => array_at h l
  | Prim _ => []
  end.

(** A store for running the resolver: [v1] and [v2] at 0 and 1, the
    caller's array [[v2, v1]] at 2. *)
Definition sample_store : store := [CRecord v1; CRecord v2; CArray [1; 0]%nat].

End Store.

(** ** The chart's records and the page *)

(** A record of [chartData]: the four fields the resolver reads, and the
    display fields it passes through. *)
Record ChartRecord := {
  fields :> VersionRecord;
  category : string;
  publishDateFormatted : string;
  validityStartFormatted : string;
  validityEndFormatted : string
}.

(** The document: the content ([value] or [innerHTML]) of each element that
    has an id. *)
Abbreviation document := (gmap string string).

(** The double quote of an HTML attribute. *)
Definition dquote : string := String "034"%char EmptyString.

(** A string in a condition: true unless empty. *)
Definition nonempty (s : string) : bool := negb (String.eqb s EmptyString).

(** ** The chart manager ([src/js/chartManager.js]) *)

Module ChartManager.

(** The fields of a [ChartManager] that the resolved-version display reads
    and writes.  [series] tells whether [this.series] is set;
    [currentValidVersion] is [_currentValidVersion], null or a name. *)
Record t := {
  chartData : list ChartRecord;
  purchaseDate : Z;
  travelDate : Z;
  series : bool;
  currentValidVersion : option string
}.

(** [updateVersionHighlight]: the refresh of the series data that follows
    the assignment stays inside the chart library. *)
Definition updateVersionHighlight (validVersionName : option string) (cm : t)
  : t :=
  if series cm
  then {| chartData := chartData cm;
          purchaseDate := purchaseDate cm;
          travelDate := travelDate cm;
          series := series cm;
          currentValidVersion := validVersionName |}
  else cm.

(** The [fill] and [stroke] adapters of the column template.  [None] is a
    column without data item; [Some None] one whose data context is missing,
    read as [{}]. *)
Definition column_color (cm : t) (dataItem : option (option ChartRecord))
  : string :=
  match dataItem with
  | None => "#aeb7e2"
  | Some ctx =>
      match ctx, currentValidVersion cm with
      | Some d, Some valid =>
          if String.eqb (version d) valid then "#181C56" else "#aeb7e2"
      | _, _ => "#aeb7e2"
      end
  end.

Section UI.
Context `{fmt : Locale}.

(** The call every display update makes. *)
Definition resolve (cm : t) : ResolutionResult :=
  resolveVersion (VArray (fields <$> chartData cm)) (Millis (purchaseDate cm))
    (Millis (travelDate cm)) (Some {| inclusiveEnd := JBool true |}).

Definition updateResolvedVersionUI (cm : t) (doc : document) : t * document :=
  match doc !! "resolved-version" with
  | None => (cm, doc)
  | Some _ =>
      let result := resolve cm in
      let header :=
        match r_match result with
        | Some m =>
            let pub := fmt (publishDate m) in
            "Gyldig versjon: <strong>" +:+ version m
              +:+ "</strong> (publisert " +:+ pub +:+ ")"
        | None =>
            match r_reason result with
            | NO_AVAILABLE_VERSIONS =>
                "Gyldig versjon: <strong>Ingen</strong> (ingen versjoner publisert ennå)"
            | NO_VERSION_COVERS_TRAVEL_DATE =>
                "Gyldig versjon: <strong>Ingen</strong> (ingen publisert versjon dekker reisedato)"
            | OK => "Gyldig versjon: <strong>–</strong>"
            end
        end in
      let explanationHtml :=
        if nonempty (r_explanation result)
        then "<div style=" +:+ dquote
               +:+ "margin-top:4px;font-size:12px;line-height:1.35;color:#555;"
               +:+ dquote +:+ ">" +:+ r_explanation result +:+ "</div>"
        else "" in
      (updateVersionHighlight (version <$> r_match result) cm,
       <["resolved-version" := header +:+ explanationHtml]> doc)
  end.

End UI.

End ChartManager.

(** ** The date forms ([src/scripts.js]) *)

(** The host's reading and writing of a date input's value:
    [new Date(value).getTime()] and [date.toISOString().split('T')[0]].
    The value of a date input is empty or a date. *)
Class DateInput := {
  parseDate : string -> Z;
  dateToInputFormat : Z -> string
}.

Module Scripts.

(** The global [chartData], the document, and the alerts shown so far. *)
Record page := {
  chartData : list ChartRecord;
  doc : document;
  alerts : list string
}.

(** One day, [24 * 60 * 60 * 1000]. *)
Definition day : Z := 24 * 60 * 60 * 1000.

Section Forms.
Context `{fmt : Locale} `{input : DateInput}.

(** [updateVersionData], also [ChartManager.updateVersionData]: the dates
    are [Date] objects, given by their time; [setData] hands the same array
    to the chart library. *)
Definition updateVersionData (versionIndex : nat)
    (publishDate startDate endDate : Z) (chartData : list ChartRecord)
  : list ChartRecord :=
  if (versionIndex <? length chartData)%nat
  then
    alter (fun d : ChartRecord =>
             {| fields := {| version := version d;
                             publishDate := publishDate;
                             open := startDate;
                             close := endDate |};
                category := category d;
                publishDateFormatted := fmt publishDate;
                validityStartFormatted := fmt startDate;
                validityEndFormatted := fmt endDate |})
          versionIndex chartData
  else chartData.

(** ['publishDate' + versionNum] and the like. *)
Definition input_id (name : string) (versionNum : nat) : string :=
  name +:+ pretty versionNum.

(** [chartData[versionIndex].version]; [None] is the TypeError on a missing
    record. *)
Definition version_at (versionIndex : nat) (chartData : list ChartRecord)
  : option string :=
  match chartData !! versionIndex with
  | Some d => Some (version (fields d))
  | None => None
  end.

(** [handleDateChange]; [None] is a TypeError: [.value] on a missing
    element, or [.version] on a missing record. *)
Definition handleDateChange (versionIndex : nat) (s : page) : option page :=
  let versionNum := (versionIndex + 1)%nat in
  publishDateInput ← doc s !! input_id "publishDate" versionNum;
  startDateInput ← doc s !! input_id "startDate" versionNum;
  endDateInput ← doc s !! input_id "endDate" versionNum;
  if nonempty publishDateInput && nonempty startDateInput
     && nonempty endDateInput
  then
    let publishDate := parseDate publishDateInput in
    let startDate := parseDate startDateInput in
    let endDate := parseDate endDateInput in
    (* start date cannot be before published date *)
    '(startDate, s) ←
      (if startDate <? publishDate
       then
         name ← version_at versionIndex (chartData s);
         Some (publishDate,
               {| chartData := chartData s;
                  doc := <[input_id "startDate" versionNum :=
                             dateToInputFormat publishDate]> (doc s);
                  alerts := alerts s ++
                    ["Start date cannot be before published date for "
                       +:+ name] |})
       else Some (startDate, s));
    (* end date must be after start date *)
    '(endDate, s) ←
      (if endDate <=? startDate
       then
         name ← version_at versionIndex (chartData s);
         let minEndDate := startDate + day in
         Some (minEndDate,
               {| chartData := chartData s;
                  doc := <[input_id "endDate" versionNum :=
                             dateToInputFormat minEndDate]> (doc s);
                  alerts := alerts s ++
                    ["End date must be after start date for " +:+ name] |})
       else Some (endDate, s));
    Some {| chartData :=
              updateVersionData versionIndex publishDate startDate endDate
                (chartData s);
            doc := doc s;
            alerts := alerts s |}
  else Some s.

End Forms.

(** The values of the three inputs of a version's form. *)
Definition form_inputs (versionIndex : nat) (s : page) (pv sv ev : string)
  : Prop :=
  doc s !! input_id "publishDate" (versionIndex + 1) = Some pv /\
  doc s !! input_id "startDate" (versionIndex + 1) = Some sv /\
  doc s !! input_id "endDate" (versionIndex + 1) = Some ev.

End Scripts.

(** ** The date calculator ([src/js/dateCalculator.js]) *)

(** A [Date] is given by its time, a whole number of milliseconds of at most
    8.64e15 in magnitude; [None] is an invalid [Date], whose time is NaN. *)
Definition max_time : Z := 8640000000000000.

(** [new Date(n)] for a whole number [n]. *)
Definition new_Date (n : Z) : option Z :=
  if Z.abs n <=? max_time then Some n else None.

(** [a < b] on two dates compares their times; with NaN it is false. *)
Definition date_lt (a b : option Z) : bool :=
  match a, b with
  | Some x, Some y => x <? y
  | _, _ => false
  end.

(** What the calculator takes from the chart library and from floating
    point: pixel positions, the dragged column, the [Date] that
    [positionToDate] interpolates between the axis bounds, and the two
    positions that [getActualColumnPositions] reads off the column. *)
Class Axis := {
  position : Type;
  target : Type;
  positionToDate : position -> option Z;
  positionToDate_valid :
    forall x z, positionToDate x = Some z -> Z.abs z <= max_time;
  getActualColumnPositions : target -> position * position
}.

Module DateCalculator.

(** Instants are whole milliseconds.  [originalDuration / 2] makes a
    midpoint or a shift a whole number or a whole number and a half; such a
    number is held doubled ([shift2] is twice [shift]).  A double holds every
    whole number below 2^53 and every half below 2^52, so the arithmetic of
    the source is exact as long as the instants stay below [limit].  The
    functions that calculate answer [None] beyond it, and for a dropped
    position without a valid date, where the source goes on with NaN: there
    the embedding says nothing.  Console output is left out. *)
Definition limit : Z := 2 ^ 50.

Definition within (z : Z) : bool := Z.abs z <? limit.

(** [new Date(x).getTime()] for a doubled [x]: a [Date] drops the fraction,
    toward zero. *)
Definition time_of_halves (x2 : Z) : Z := Z.quot x2 2.

Record OriginalData := {
  open : Z;
  close : Z;
  publishDate : Z
}.

Record ShiftData := {
  shift2 : Z;              (* twice [shift] *)
  originalStart : Z;
  originalEnd : Z;
  originalDuration : Z;
  originalMidpoint2 : Z;   (* twice [originalMidpoint] *)
  newMidpoint : Z
}.

(** The dates are given by their time, so [startDate] and [startTimestamp]
    agree. *)
Record FinalDates := {
  startDate : Z;
  endDate : Z;
  startTimestamp : Z;
  endTimestamp : Z;
  f_publishDate : Z;
  wasAdjusted : bool
}.

(** [{ ...finalDates, originalData, shiftData }]. *)
Record DropDates := {
  finalDates : FinalDates;
  d_originalData : OriginalData;
  d_shiftData : ShiftData
}.

(** Where [calculateDateShift] is exact. *)
Definition period_in_range (originalData : OriginalData)
    (newMidpointDate : Z) : bool :=
  within (open originalData) && within (close originalData)
  && within newMidpointDate.

(** Where [applyShiftAndValidate] is exact. *)
Definition shift_in_range (shiftData : ShiftData)
    (publishDateTimestamp : Z) : bool :=
  within (originalStart shiftData) && within (originalEnd shiftData)
  && within publishDateTimestamp
  && (Z.abs (shift2 shiftData) <? 4 * limit).

Definition calculateDateShift (originalData : OriginalData)
    (newMidpointDate : Z) : option ShiftData :=
  if period_in_range originalData newMidpointDate
  then
    let originalStart := open originalData in
    let originalEnd := close originalData in
    let originalDuration := originalEnd - originalStart in
    let originalMidpoint2 := 2 * originalStart + originalDuration in
    let newMidpoint := newMidpointDate in
    let shift2 := 2 * newMidpoint - originalMidpoint2 in
    Some {| shift2 := shift2;
            originalStart := originalStart;
            originalEnd := originalEnd;
            originalDuration := originalDuration;
            originalMidpoint2 := originalMidpoint2;
            newMidpoint := newMidpoint |}
  else None.

Definition applyShiftAndValidate (shiftData : ShiftData)
    (publishDateTimestamp : Z) : option FinalDates :=
  if shift_in_range shiftData publishDateTimestamp
  then
    let finalStartDate :=
      time_of_halves (2 * originalStart shiftData + shift2 shiftData) in
    let finalEndDate :=
      time_of_halves (2 * originalEnd shiftData + shift2 shiftData) in
    let publishDate := publishDateTimestamp in
    (* start date cannot be before publish date *)
    let '(finalStartDate, finalEndDate) :=
      if finalStartDate <? publishDate
      then
        let adjustment := publishDate - finalStartDate in
        (publishDate, finalEndDate + adjustment)
      else (finalStartDate, finalEndDate) in
    Some {| startDate := finalStartDate;
            endDate := finalEndDate;
            startTimestamp := finalStartDate;
            endTimestamp := finalEndDate;
            f_publishDate := publishDate;
            wasAdjusted := finalStartDate =? publishDate |}
  else None.

(** The result of [calculatePreciseDropDates]; here a date can be invalid
    and its timestamp NaN. *)
Record PreciseDates `{Axis} := {
  p_startDate : option Z;
  p_endDate : option Z;
  p_publishDate : option Z;
  p_startTimestamp : option Z;
  p_endTimestamp : option Z;
  publishTimestamp : option Z;
  p_originalData : OriginalData;
  p_wasAdjusted : bool;
  publishDateWasUpdated : bool;
  actualStartX : position;
  actualEndX : position
}.

Section OnAxis.
Context `{axis : Axis}.

Definition calculateDropDates (finalXPosition : position)
    (originalData : OriginalData) : option DropDates :=
  newMidpointDate ← positionToDate finalXPosition;
  shiftData ← calculateDateShift originalData newMidpointDate;
  finalDates ← applyShiftAndValidate shiftData (publishDate originalData);
  Some {| finalDates := finalDates;
          d_originalData := originalData;
          d_shiftData := shiftData |}.

Definition calculatePreciseDropDates (column : target)
    (originalData : OriginalData) : PreciseDates :=
  let '(startX, endX) := getActualColumnPositions column in
  let newStartDate := positionToDate startX in
  let newEndDate := positionToDate endX in
  let publishDate := new_Date (publishDate originalData) in
  let finalStartDate := newStartDate in
  let finalEndDate := newEndDate in
  (* the publish date follows a start date that is before it *)
  let '(publishDate, publishDateWasUpdated) :=
    if date_lt finalStartDate publishDate
    then (finalStartDate ≫= new_Date, true)
    else (publishDate, false) in
  {| p_startDate := finalStartDate;
     p_endDate := finalEndDate;
     p_publishDate := publishDate;
     p_startTimestamp := finalStartDate;
     p_endTimestamp := finalEndDate;
     publishTimestamp := publishDate;
     p_originalData := originalData;
     p_wasAdjusted := publishDateWasUpdated;
     publishDateWasUpdated := publishDateWasUpdated;
     actualStartX := startX;
     actualEndX := endX |}.

End OnAxis.

End DateCalculator.

(** An axis for running the calculator: a position is the instant it stands
    for, a column is the pair of its ends. *)
Definition plain_axis : Axis.
Proof.
  refine {| position := Z;
            target := Z * Z;
            positionToDate := new_Date;
            positionToDate_valid := _;
            getActualColumnPositions := fun c => c |}.
  intros x z. unfold new_Date.
  destruct (Z.leb_spec (Z.abs x) max_time); [|done]. by intros [= <-].
Defined.

(** ** Sample chart data *)

Definition chart_v1 : ChartRecord :=
  {| fields := v1;
     category := "Version 1";
     publishDateFormatted := "100";
     validityStartFormatted := "100";
     validityEndFormatted := "200" |}.

Definition chart_v2 : ChartRecord :=
  {| fields := v2;
     category := "Version 2";
     publishDateFormatted := "150";
     validityStartFormatted := "100";
     validityEndFormatted := "200" |}.

(** A chart manager with both records, bought at 160 for travel at 150. *)
Definition sample_manager : ChartManager.t :=
  {| ChartManager.chartData := [chart_v1; chart_v2];
     ChartManager.purchaseDate := 160;
     ChartManager.travelDate := 150;
     ChartManager.series := true;
     ChartManager.currentValidVersion := None |}.

(** A page with the display element, still empty. *)
Definition sample_document : document := {[ "resolved-version" := "" ]}.

(** Date inputs that hold the time in decimal. *)
Definition decimal_input : DateInput :=
  {| parseDate := fun s =>
       match NilEmpty.int_of_string s with
       | Some i => Z.of_int i
       | None => 0
       end;
     dateToInputFormat := fun z => pretty z |}.

(** A page with the form of the first version filled in. *)
Definition sample_page : Scripts.page :=
  {| Scripts.chartData := [chart_v1];
     Scripts.doc :=
       {[ "publishDate1" := "100"; "startDate1" := "150";
          "endDate1" := "200" ]};
     Scripts.alerts := [] |}.

(** A period of 100 ms published at 50, and the shift that centres it on
    300. *)
Definition sample_period : DateCalculator.OriginalData :=
  {| DateCalculator.open := 100;
     DateCalculator.close := 200;
     DateCalculator.publishDate := 50 |}.

Definition sample_shift : DateCalculator.ShiftData :=
  {| DateCalculator.shift2 := 300;
     DateCalculator.originalStart := 100;
     DateCalculator.originalEnd := 200;
     DateCalculator.originalDuration := 100;
     DateCalculator.originalMidpoint2 := 300;
     DateCalculator.newMidpoint := 300 |}.

(** ** Vocabulary of the statements *)

(** The window [open, close] contains [t], the end included or not. *)
Definition covers (inclusive : bool) (t : Z) (v : VersionRecord) : Prop :=
  open v <= t /\ (if inclusive then t <= close v else t < close v).

(** The inclusivity [inRange] applies for a given [options] argument. *)
Definition inclusiveEnd_applied (options : option ResolveOptions) : bool :=
  truthy (destructure_inclusiveEnd (default empty_options options)).

Definition key_le {A : Type} (key : A -> Z) (a b : A) : Prop := key a <= key b.

(** The elements the resolver works on: those of an array, none otherwise. *)
Definition elements (versions : versions_arg) : list VersionRecord :=
  match versions with
  | VArray l => l
  | VNotArray _ => []
  end.

(** Ascending by publishDate. *)
Definition pd_le : VersionRecord -> VersionRecord -> Prop := key_le publishDate.

(** The order of the selection, publishDate first, then open: [c] comes
    strictly before [m], or not after it. *)
Definition older (c m : VersionRecord) : Prop :=
  publishDate c < publishDate m \/
  (publishDate c = publishDate m /\ open c < open m).

Definition not_newer (c m : VersionRecord) : Prop :=
  publishDate c < publishDate m \/
  (publishDate c = publishDate m /\ open c <= open m).

(** The number a decimal numeral writes, read digit by digit from the
    left.  A numeral is a non-empty string of the digits 0 to 9 that does not
    begin with 0, or the string of the one digit 0; any other string writes
    no number. *)
Definition digit_value (c : ascii) : option nat :=
  let code := nat_of_ascii c in
  if (nat_of_ascii "0" <=? code)%nat && (code <=? nat_of_ascii "9")%nat
  then Some (code - nat_of_ascii "0")%nat
  else None.

Fixpoint digits_value (acc : nat) (s : string) : option nat :=
  match s with
  | EmptyString => Some acc
  | String c s' =>
      match digit_value c with
      | Some d => digits_value (10 * acc + d)%nat s'
      | None => None
      end
  end.

Definition decimal_value (s : string) : option nat :=
  match s with
  | EmptyString => None
  | String c s' =>
      if Ascii.eqb c "0" && negb (String.eqb s' EmptyString)
      then None
      else digits_value 0 s
  end.

(** ** The sort *)

Section SortByFacts.
Context {A : Type} (key : A -> Z).

Lemma insert_by_Permutation x l : Permutation (insert_by key x l) (x :: l).
Proof.
  induction l as [|y l IH]; simpl; [reflexivity|].
  destruct (key x <=? key y); [reflexivity|].
  rewrite IH. apply perm_swap.
Qed.

Lemma sort_by_Permutation l : Permutation (sort_by key l) l.
Proof.
  induction l as [|x l IH]; simpl; [reflexivity|].
  rewrite insert_by_Permutation. by constructor.
Qed.

Lemma sort_by_In l v : In v (sort_by key l) <-> In v l.
Proof.
  split; apply Permutation_in; [|symmetry]; apply sort_by_Permutation.
Qed.

Lemma insert_by_sorted x l :
  StronglySorted (key_le key) l -> StronglySorted (key_le key) (insert_by key x l).
Proof.
  induction 1 as [|y l Hs IH Hy]; simpl.
  - repeat constructor.
  - destruct (Z.leb_spec (key x) (key y)) as [Hxy|Hxy].
    + constructor; [by constructor|].
      constructor; [exact Hxy|].
      eapply List.Forall_impl; [|exact Hy].
      unfold key_le; intros; lia.
    + constructor; [exact IH|].
      eapply Permutation_Forall; [symmetry; apply insert_by_Permutation|].
      constructor; [unfold key_le; lia|exact Hy].
Qed.

Lemma sort_by_sorted l : StronglySorted (key_le key) (sort_by key l).
Proof.
  induction l as [|x l IH]; simpl; [constructor|].
  by apply insert_by_sorted.
Qed.

Lemma filter_sorted (f : A -> bool) l :
  StronglySorted (key_le key) l -> StronglySorted (key_le key) (List.filter f l).
Proof.
  induction 1 as [|y l Hs IH Hy]; simpl; [constructor|].
  destruct (f y); [|exact IH].
  constructor; [exact IH|].
  apply List.Forall_forall. intros z Hz.
  apply List.filter_In in Hz as [Hz _].
  revert z Hz. by apply List.Forall_forall.
Qed.

End SortByFacts.

(** Sorting commutes with reading the key through a projection. *)
Lemma insert_by_fmap {A B : Type} (f : A -> B) (key : B -> Z) (x : A)
    (l : list A) :
  f <$> insert_by (fun a => key (f a)) x l = insert_by key (f x) (f <$> l).
Proof.
  induction l as [|y l IH]; [done|].
  change (f <$> (if key (f x) <=? key (f y) then x :: y :: l
                 else y :: insert_by (fun a => key (f a)) x l)
          = if key (f x) <=? key (f y) then f x :: f y :: (f <$> l)
            else f y :: insert_by key (f x) (f <$> l)).
  destruct (key (f x) <=? key (f y)); [done|].
  rewrite <- IH. done.
Qed.

Lemma sort_by_fmap {A B : Type} (f : A -> B) (key : B -> Z) (l : list A) :
  f <$> sort_by (fun a => key (f a)) l = sort_by key (f <$> l).
Proof.
  induction l as [|x l IH]; [done|].
  change (f <$> insert_by (fun a => key (f a)) x (sort_by (fun a => key (f a)) l)
          = insert_by key (f x) (sort_by key (f <$> l))).
  by rewrite insert_by_fmap, IH.
Qed.

(** ** The coverage predicate *)

Lemma inRange_covers ie t v :
  inRange ie t v = true <-> covers (truthy ie) t v.
Proof.
  unfold inRange, covers. destruct (truthy ie);
    rewrite andb_true_iff, Z.leb_le, ?Z.leb_le, ?Z.ltb_lt; reflexivity.
Qed.

(** ** The selection *)

Lemma older_trans a b c : not_newer a b -> older b c -> older a c.
Proof. unfold older, not_newer. lia. Qed.

Lemma older_not_newer a b : older a b -> not_newer a b.
Proof. unfold older, not_newer. lia. Qed.

Lemma pick_newer_cases m x :
  (pick_newer (Some m) x = Some x /\ older m x) \/
  (pick_newer (Some m) x = Some m /\ not_newer x m).
Proof.
  unfold pick_newer, older, not_newer.
  destruct (Z.ltb_spec (publishDate m) (publishDate x)); [left; split; [done|lia]|].
  destruct (Z.eqb_spec (publishDate x) (publishDate m));
    destruct (Z.ltb_spec (open m) (open x)); simpl;
    first [left; split; [done|lia] | right; split; [done|lia]].
Qed.

(** The fold returns the first of the greatest elements: everything before
    it is strictly older, nothing after it is newer. *)
Lemma fold_pick_newer a l :
  exists m before after,
    fold_left pick_newer l (Some a) = Some m /\
    a :: l = before ++ m :: after /\
    Forall (fun c => older c m) before /\
    Forall (fun c => not_newer c m) after.
Proof.
  induction l as [|x l IH] using rev_ind.
  - exists a, [], []. repeat split; constructor.
  - destruct IH as (m & l1 & l2 & Hf & Hl & H1 & H2).
    rewrite fold_left_app, Hf. cbn [fold_left].
    destruct (pick_newer_cases m x) as [[-> Hmx]|[-> Hxm]].
    + exists x, (a :: l), []. split; [done|]. split; [done|]. split; [|constructor].
      rewrite Hl. apply Forall_app. split; [|constructor; [exact Hmx|]].
      * eapply List.Forall_impl; [|exact H1].
        intros c Hc. apply (older_trans c m x); [by apply older_not_newer|done].
      * eapply List.Forall_impl; [|exact H2].
        intros c Hc. by apply (older_trans c m x).
    + exists m, l1, (l2 ++ [x]). split; [done|]. split; [|split; [done|]].
      * change (a :: l ++ [x]) with ((a :: l) ++ [x]).
        rewrite Hl, <- app_assoc. reflexivity.
      * apply Forall_app. split; [done|]. by constructor.
Qed.

Lemma fold_pick_newer_In l m :
  fold_left pick_newer l None = Some m ->
  In m l /\ Forall (fun c => not_newer c m) l.
Proof.
  destruct l as [|a l]; [discriminate|].
  change (fold_left pick_newer (a :: l) None)
    with (fold_left pick_newer l (Some a)).
  destruct (fold_pick_newer a l) as (m' & l1 & l2 & Hf & Hl & H1 & H2).
  rewrite Hf. intros [= ->]. rewrite Hl. split.
  - apply in_or_app. right. by left.
  - apply Forall_app. split.
    + eapply List.Forall_impl; [|exact H1]. intros c. apply older_not_newer.
    + constructor; [|done]. unfold not_newer. lia.
Qed.

(** ** The fields of the result *)

Section ResolverFacts.
Context `{fmt : Locale}.

(** Every branch of [resolveVersion] fills the fields from the same four
    lists; the literal [[]] of the early returns are the empty filters. *)
Lemma resolveVersion_fields versions pd td o :
  let r := resolveVersion versions pd td o in
  let ie := destructure_inclusiveEnd (default empty_options o) in
  let p := normalize pd in
  let t := normalize td in
  let sorted := sort_by publishDate (elements versions) in
  let available := List.filter (fun v => publishDate v <=? p) sorted in
  let candidates := List.filter (inRange ie t) available in
  r_available r = available /\
  r_candidates r = candidates /\
  r_futureCovering r =
    List.filter (fun v => (p <? publishDate v) && inRange ie t v) sorted /\
  r_match r = fold_left pick_newer candidates None /\
  r_reason r =
    match available, candidates with
    | [], _ => NO_AVAILABLE_VERSIONS
    | _ :: _, [] => NO_VERSION_COVERS_TRAVEL_DATE
    | _ :: _, _ :: _ => OK
    end /\
  r_purchaseDate r = p /\ r_travelDate r = t /\
  r_options r = strict_ne_false (inclusiveEnd (default empty_options o)).
Proof.
  unfold resolveVersion. destruct versions as [[|v l]|x]; simpl; [done| |done].
  set (sorted := insert_by publishDate v (sort_by publishDate l)).
  destruct (List.filter (fun v0 => publishDate v0 <=? normalize pd) sorted)
    as [|a av] eqn:Ha; [done|].
  destruct (List.filter _ (a :: av)) as [|c cs] eqn:Hc; simpl; rewrite ?Hc; done.
Qed.

End ResolverFacts.

(** ** Reason, match and the result's invariants *)

Section ResolverTheorems.
Context `{fmt : Locale}.

Lemma available_In l purchaseDate travelDate options v :
  In v (r_available (resolveVersion (VArray l) purchaseDate travelDate options))
  <-> In v l /\ publishDate v <= normalize purchaseDate.
Proof.
  destruct (resolveVersion_fields (VArray l) purchaseDate travelDate options)
    as (-> & _).
  simpl elements.
  rewrite List.filter_In, sort_by_In, Z.leb_le. reflexivity.
Qed.

Lemma candidates_In l purchaseDate travelDate options v :
  In v (r_candidates (resolveVersion (VArray l) purchaseDate travelDate options))
  <-> In v l /\ publishDate v <= normalize purchaseDate /\
      covers (inclusiveEnd_applied options) (normalize travelDate) v.
Proof.
  destruct (resolveVersion_fields (VArray l) purchaseDate travelDate options)
    as (_ & -> & _).
  simpl elements.
  rewrite !List.filter_In, sort_by_In, Z.leb_le, inRange_covers.
  unfold inclusiveEnd_applied. tauto.
Qed.

(** C1: for an array of version records, [available] holds exactly the
    records published at or before the purchase instant; when it is empty the
    reason is NO_AVAILABLE_VERSIONS with no match and no candidates; otherwise
    [candidates] holds exactly the available records whose window contains the
    travel instant under the inclusivity the call applies, the reason is
    NO_VERSION_COVERS_TRAVEL_DATE with no match when there is none, and OK
    with a match when there is one. *)
Theorem resolveVersion_reason_and_match
    (l : list VersionRecord) (purchaseDate travelDate : instant_arg)
    (options : option ResolveOptions) :
  let r := resolveVersion (VArray l) purchaseDate travelDate options in
  let p := normalize purchaseDate in
  let t := normalize travelDate in
  (forall v, In v (r_available r) <-> In v l /\ publishDate v <= p) /\
  (r_available r = [] ->
     r_reason r = NO_AVAILABLE_VERSIONS /\ r_match r = None /\
     r_candidates r = []) /\
  (r_available r <> [] ->
     (forall v, In v (r_candidates r) <->
        In v (r_available r) /\ covers (inclusiveEnd_applied options) t v) /\
     (r_candidates r = [] ->
        r_reason r = NO_VERSION_COVERS_TRAVEL_DATE /\ r_match r = None) /\
     (r_candidates r <> [] ->
        r_reason r = OK /\ exists m, r_match r = Some m)).
Proof.
  intros r p t.
  pose proof (resolveVersion_fields (VArray l) purchaseDate travelDate options)
    as H.
  cbv zeta in H. fold r p t in H. simpl elements in H.
  destruct H as (Ha & Hc & _ & Hm & Hr & _).
  split; [|split].
  - intros v. apply available_In.
  - intros Hnil. rewrite Hr, Hm, Hc, <- Ha, Hnil. done.
  - intros Hne. split; [|split].
    + intros v. rewrite Hc, <- Ha, List.filter_In, inRange_covers. reflexivity.
    + intros Hnil. rewrite Hr, Hm, <- Hc, <- Ha, Hnil.
      destruct (r_available r); done.
    + intros Hcne. rewrite Hr, Hm, <- Hc, <- Ha.
      destruct (r_available r) as [|a av]; [done|].
      destruct (r_candidates r) as [|c cs]; [done|].
      split; [done|].
      destruct (fold_pick_newer c cs) as (m & _ & _ & Hf & _).
      exists m. exact Hf.
Qed.

(** C2: when there are candidates the reason is OK and the match is the
    first of the newest candidates in the publishDate-ascending list: every
    candidate before it has a smaller publishDate, or the same publishDate
    and a smaller open; no candidate after it has a greater publishDate, or
    the same publishDate and a greater open. *)
Theorem resolveVersion_selects_newest
    (versions : versions_arg) (purchaseDate travelDate : instant_arg)
    (options : option ResolveOptions) :
  let r := resolveVersion versions purchaseDate travelDate options in
  r_candidates r <> [] ->
  r_reason r = OK /\
  StronglySorted pd_le (r_candidates r) /\
  exists m before after,
    r_match r = Some m /\
    r_candidates r = before ++ m :: after /\
    Forall (fun c => older c m) before /\
    Forall (fun c => not_newer c m) after.
Proof.
  intros r Hne.
  pose proof (resolveVersion_fields versions purchaseDate travelDate options)
    as H.
  cbv zeta in H. fold r in H.
  destruct H as (Ha & Hc & _ & Hm & Hr & _).
  split; [|split].
  - rewrite Hr, <- Hc, <- Ha. rewrite <- Ha in Hc.
    destruct (r_available r) as [|a av]; [by rewrite Hc in Hne|].
    destruct (r_candidates r); done.
  - rewrite Hc. do 2 apply filter_sorted. apply sort_by_sorted.
  - rewrite Hm, <- Hc.
    destruct (r_candidates r) as [|c cs]; [done|].
    apply (fold_pick_newer c cs).
Qed.

(** C10: candidates are available; available records are published at or
    before the purchase instant and future-covering ones strictly after it,
    so no record is in both; the three lists ascend by publishDate; a match
    is a candidate, and not a future-covering record. *)
Theorem resolveVersion_invariants
    (versions : versions_arg) (purchaseDate travelDate : instant_arg)
    (options : option ResolveOptions) :
  let r := resolveVersion versions purchaseDate travelDate options in
  let p := normalize purchaseDate in
  (forall v, In v (r_candidates r) -> In v (r_available r)) /\
  Forall (fun v => publishDate v <= p) (r_available r) /\
  Forall (fun v => p < publishDate v) (r_futureCovering r) /\
  (forall v, In v (r_available r) -> ~ In v (r_futureCovering r)) /\
  StronglySorted pd_le (r_available r) /\
  StronglySorted pd_le (r_candidates r) /\
  StronglySorted pd_le (r_futureCovering r) /\
  (forall m, r_match r = Some m ->
     In m (r_candidates r) /\ ~ In m (r_futureCovering r)).
Proof.
  intros r p.
  pose proof (resolveVersion_fields versions purchaseDate travelDate options)
    as H.
  cbv zeta in H. fold r p in H.
  destruct H as (Ha & Hc & Hf & Hm & _).
  assert (Hav : forall v, In v (r_available r) -> publishDate v <= p).
  { intros v. rewrite Ha, List.filter_In, Z.leb_le. tauto. }
  assert (Hfu : forall v, In v (r_futureCovering r) -> p < publishDate v).
  { intros v. rewrite Hf, List.filter_In, andb_true_iff, Z.ltb_lt. tauto. }
  assert (Hca : forall v, In v (r_candidates r) -> In v (r_available r)).
  { intros v. rewrite Hc, <- Ha, List.filter_In. tauto. }
  assert (Hdis : forall v, In v (r_available r) -> ~ In v (r_futureCovering r)).
  { intros v H1 H2. apply Hav in H1. apply Hfu in H2. lia. }
  repeat split.
  - exact Hca.
  - by apply List.Forall_forall.
  - by apply List.Forall_forall.
  - exact Hdis.
  - rewrite Ha. apply filter_sorted, sort_by_sorted.
  - rewrite Hc. do 2 apply filter_sorted. apply sort_by_sorted.
  - rewrite Hf. apply filter_sorted, sort_by_sorted.
  - rewrite Hm, <- Hc in H. by apply fold_pick_newer_In in H as [? _].
  - intros Hin. rewrite Hm, <- Hc in H.
    apply fold_pick_newer_In in H as [H _]. by apply (Hdis m); [apply Hca|].
Qed.

(** C7: with the records, the travel date and the options fixed, every
    record available at a purchase instant is available at any later one. *)
Theorem available_monotone
    (l : list VersionRecord) (travelDate : instant_arg)
    (options : option ResolveOptions) (p1 p2 : instant_arg) :
  normalize p1 <= normalize p2 ->
  forall v,
    In v (r_available (resolveVersion (VArray l) p1 travelDate options)) ->
    In v (r_available (resolveVersion (VArray l) p2 travelDate options)).
Proof.
  intros Hle v. rewrite !available_In. intros [? ?]. split; [done|lia].
Qed.

(** C5: an available record with [open <= close] is a candidate for the
    travel instant [close] when inclusiveEnd is true and is not when it is
    false; with [open = close] and inclusiveEnd true it is a candidate exactly
    for that one travel instant. *)
Theorem end_boundary_law
    (l : list VersionRecord) (v : VersionRecord)
    (purchaseDate travelDate : instant_arg) :
  In v l ->
  publishDate v <= normalize purchaseDate ->
  open v <= close v ->
  normalize travelDate = close v ->
  In v (r_candidates (resolveVersion (VArray l) purchaseDate travelDate
                        (with_inclusiveEnd (JBool true)))) /\
  ~ In v (r_candidates (resolveVersion (VArray l) purchaseDate travelDate
                          (with_inclusiveEnd (JBool false)))) /\
  (open v = close v ->
   forall t : instant_arg,
     In v (r_candidates (resolveVersion (VArray l) purchaseDate t
                           (with_inclusiveEnd (JBool true))))
     <-> normalize t = open v).
Proof.
  intros Hin Hpub Hoc Ht. rewrite !candidates_In, Ht.
  change (inclusiveEnd_applied (with_inclusiveEnd (JBool true))) with true.
  change (inclusiveEnd_applied (with_inclusiveEnd (JBool false))) with false.
  unfold covers. split; [|split].
  - repeat split; [done|lia..].
  - intros (_ & _ & _ & Hlt). lia.
  - intros Heq t. rewrite candidates_In.
    change (inclusiveEnd_applied (with_inclusiveEnd (JBool true))) with true.
    split.
    + intros (_ & _ & Hlo & Hhi). lia.
    + intros Hteq. repeat split; [done|lia..].
Qed.

(** ** The end boundary *)

(** C4 (amended): when [options.inclusiveEnd] is absent, a boolean or any
    truthy value, the echoed [options.inclusiveEnd] is true unless it is
    strictly false, and the coverage predicate, the candidates and the
    future-covering records are those of the echoed inclusivity: the end
    included when it is true, excluded when it is false. *)
Theorem inclusiveEnd_applied_is_echoed
    (versions : versions_arg) (purchaseDate travelDate : instant_arg)
    (options : option ResolveOptions) :
  let given := inclusiveEnd (default empty_options options) in
  let r := resolveVersion versions purchaseDate travelDate options in
  let p := normalize purchaseDate in
  let t := normalize travelDate in
  given = JUndefined \/ (exists b, given = JBool b) \/ truthy given = true ->
  (r_options r = true <-> given <> JBool false) /\
  (forall v,
     inRange (destructure_inclusiveEnd (default empty_options options)) t v = true
     <-> covers (r_options r) t v) /\
  (forall v, In v (r_candidates r) <->
     In v (r_available r) /\ covers (r_options r) t v) /\
  (forall v, In v (r_futureCovering r) <->
     In v (elements versions) /\ p < publishDate v /\ covers (r_options r) t v).
Proof.
  intros given r p t Hgiven.
  pose proof (resolveVersion_fields versions purchaseDate travelDate options)
    as H.
  cbv zeta in H. fold r p t given in H.
  destruct H as (Ha & Hc & Hf & _ & _ & _ & _ & Ho).
  assert (Happ : truthy (destructure_inclusiveEnd (default empty_options options))
                 = r_options r).
  { rewrite Ho. unfold destructure_inclusiveEnd. fold given.
    destruct Hgiven as [->|[[b ->]|Ht]]; [done|by destruct b|].
    destruct given as [| |[]| | | |]; done. }
  split; [|split; [|split]].
  - rewrite Ho. destruct given as [| |[]| | | |]; simpl; split; done.
  - intros v. by rewrite inRange_covers, Happ.
  - intros v. by rewrite Hc, <- Ha, List.filter_In, inRange_covers, Happ.
  - intros v.
    rewrite Hf, List.filter_In, sort_by_In, andb_true_iff, Z.ltb_lt,
      inRange_covers, Happ.
    reflexivity.
Qed.

(** ** Order of the input *)


Lemma fold_pick_newer_None l : fold_left pick_newer l None = None <-> l = [].
Proof.
  destruct l as [|c cs]; [done|].
  change (fold_left pick_newer (c :: cs) None)
    with (fold_left pick_newer cs (Some c)).
  destruct (fold_pick_newer c cs) as (m & _ & _ & -> & _). done.
Qed.


(** ** The explanation *)

Lemma string_app_assoc (a b c : string) : (a +:+ b) +:+ c = a +:+ (b +:+ c).
Proof.
  induction a as [|x a IH]; [done|].
  change (String x ((a +:+ b) +:+ c) = String x (a +:+ (b +:+ c))).
  by rewrite IH.
Qed.

(** What [`${n}`] prints is read back as [n]. *)
Lemma digit_value_pretty_N_char (y : N) :
  (y < 10)%N -> digit_value (pretty_N_char y) = Some (N.to_nat y).
Proof.
  intros Hy.
  assert (y = 0 \/ y = 1 \/ y = 2 \/ y = 3 \/ y = 4 \/ y = 5 \/ y = 6
          \/ y = 7 \/ y = 8 \/ y = 9)%N as Hc by lia.
  repeat (destruct Hc as [->|Hc]; [reflexivity|]). by subst y.
Qed.

Lemma pretty_N_char_zero (y : N) :
  (0 < y < 10)%N -> Ascii.eqb (pretty_N_char y) "0" = false.
Proof.
  intros Hy.
  assert (y = 1 \/ y = 2 \/ y = 3 \/ y = 4 \/ y = 5 \/ y = 6
          \/ y = 7 \/ y = 8 \/ y = 9)%N as Hc by lia.
  repeat (destruct Hc as [->|Hc]; [reflexivity|]). by subst y.
Qed.

Lemma pretty_N_go_digits (x : N) :
  exists (d : string) (k : nat),
    (forall s, pretty_N_go x s = d +:+ s) /\
    ((0 < x)%N ->
     exists c d', d = String c d' /\ Ascii.eqb c "0" = false) /\
    (forall acc s,
       digits_value acc (d +:+ s)
       = digits_value (acc * 10 ^ k + N.to_nat x)%nat s).
Proof.
  induction (N.lt_wf_0 x) as [x _ IH].
  assert (x = 0 \/ 0 < x)%N as [->|Hpos] by lia.
  { exists "", 0%nat. split; [done|]. split; [lia|].
    intros acc s. simpl. f_equal. lia. }
  destruct (IH (x `div` 10)%N) as (d & k & Hgo & Hlead & Hval).
  { by apply N.div_lt. }
  assert (Hmod : (x `mod` 10 < 10)%N) by (by apply N.mod_lt).
  exists (d +:+ String (pretty_N_char (x `mod` 10)) ""), (S k).
  split; [|split].
  - intros s. rewrite pretty_N_go_step, Hgo by done.
    by rewrite string_app_assoc.
  - intros _. destruct (N.eq_0_gt_0_cases (x `div` 10)) as [Hz|Hd].
    + rewrite Hz in Hgo. specialize (Hgo ""). rewrite pretty_N_go_0 in Hgo.
      assert (Hd : d = "").
      { destruct d; [done|]. simpl in Hgo. discriminate. }
      subst d. eexists _, _. split; [reflexivity|].
      apply pretty_N_char_zero. apply N.div_small_iff in Hz; [|done].
      rewrite N.mod_small by done. lia.
    + destruct (Hlead Hd) as (c & d' & -> & Hc).
      eexists _, _. split; [reflexivity|done].
  - intros acc s. rewrite string_app_assoc, Hval.
    change (String (pretty_N_char (x `mod` 10)) "" +:+ s)
      with (String (pretty_N_char (x `mod` 10)) s).
    cbn [digits_value].
    rewrite digit_value_pretty_N_char by done. f_equal.
    pose proof (N.div_mod x 10 ltac:(done)) as Hx.
    apply (f_equal N.to_nat) in Hx.
    rewrite N2Nat.inj_add, N2Nat.inj_mul in Hx.
    change (N.to_nat 10) with 10%nat in Hx.
    rewrite Nat.pow_succ_r', Hx. generalize (10 ^ k)%nat. intros p. nia.
Qed.

Lemma decimal_value_pretty (n : nat) : decimal_value (pretty n) = Some n.
Proof.
  unfold pretty, pretty_nat, pretty, pretty_N.
  destruct (decide (N.of_nat n = 0%N)) as [Hz|Hnz].
  { assert (n = 0%nat) as -> by lia. reflexivity. }
  destruct (pretty_N_go_digits (N.of_nat n)) as (d & k & Hgo & Hlead & Hval).
  destruct Hlead as (c & d' & -> & Hc); [lia|].
  rewrite Hgo. change (String c d' +:+ "") with (String c (d' +:+ "")).
  unfold decimal_value. rewrite Hc. cbn [andb].
  change (String c (d' +:+ "")) with (String c d' +:+ "").
  rewrite Hval. simpl. f_equal. lia.
Qed.

(** Every branch hands [buildExplanation] the values it stores. *)
Lemma resolveVersion_explanation versions purchaseDate travelDate options :
  let r := resolveVersion versions purchaseDate travelDate options in
  r_explanation r =
    buildExplanation (r_match r) (r_candidates r) (r_available r)
      (r_futureCovering r) (normalize purchaseDate) (normalize travelDate)
      (r_reason r) (destructure_inclusiveEnd (default empty_options options)).
Proof.
  unfold resolveVersion. destruct versions as [[|v l]|x]; [done| |done].
  cbv zeta.
  destruct (List.filter (fun v0 => publishDate v0 <=? normalize purchaseDate) _)
    as [|a av]; [done|].
  destruct (List.filter _ (a :: av)); done.
Qed.

Lemma reason_OK_match versions purchaseDate travelDate options :
  let r := resolveVersion versions purchaseDate travelDate options in
  r_reason r = OK -> exists m, r_match r = Some m.
Proof.
  intros r.
  destruct (resolveVersion_fields versions purchaseDate travelDate options)
    as (_ & _ & _ & Hm & Hr & _).
  fold r in Hm, Hr. rewrite Hm, Hr.
  destruct (List.filter (fun v => publishDate v <=? _) _); [done|].
  destruct (List.filter _ (_ :: _)) as [|c cs]; [done|]. intros _.
  destruct (fold_pick_newer c cs) as (m & _ & _ & Hf & _). by exists m.
Qed.

Lemma sorted_last_greatest {A : Type} (key : A -> Z) (l : list A) (f : A) :
  StronglySorted (key_le key) l -> last l = Some f ->
  Forall (fun g => key g <= key f) l.
Proof.
  intros Hs Hl. apply last_Some in Hl as [l' ->].
  apply StronglySorted_app in Hs as (Hs & _ & _).
  apply Forall_app. split; [|constructor; [lia|constructor]].
  apply List.Forall_forall. intros g Hg.
  apply (Hs g f); [by apply list_elem_of_In|by left].
Qed.

(** C9: when [futureCovering] is not empty and the reason is
    NO_VERSION_COVERS_TRAVEL_DATE or OK, the explanation contains
    "(version, publisert date)" for the last record of [futureCovering],
    whose publishDate is the greatest of [futureCovering]; for
    NO_VERSION_COVERS_TRAVEL_DATE the explanation begins with
    "Det fantes n publiserte versjon(er)", [n] being the decimal numeral of
    the length of [available]. *)
Theorem explanation_names_latest_future
    (versions : versions_arg) (purchaseDate travelDate : instant_arg)
    (options : option ResolveOptions) :
  let r := resolveVersion versions purchaseDate travelDate options in
  r_futureCovering r <> [] ->
  r_reason r = NO_VERSION_COVERS_TRAVEL_DATE \/ r_reason r = OK ->
  exists f,
    last (r_futureCovering r) = Some f /\
    Forall (fun g => publishDate g <= publishDate f) (r_futureCovering r) /\
    (exists pre post,
       r_explanation r =
         pre +:+ "(" +:+ version f +:+ ", publisert "
           +:+ fmt (publishDate f) +:+ ")" +:+ post) /\
    (r_reason r = NO_VERSION_COVERS_TRAVEL_DATE ->
     exists count rest,
       r_explanation r =
         "Det fantes " +:+ count
           +:+ " publiserte versjon(er) på kjøpsdato " +:+ rest /\
       decimal_value count = Some (length (r_available r))).
Proof.
  intros r Hne Hreason.
  destruct (proj2 (last_is_Some (r_futureCovering r)) Hne) as [f Hf].
  exists f. split; [done|]. split.
  { apply (sorted_last_greatest publishDate); [|done]. unfold r.
    destruct (resolveVersion_fields versions purchaseDate travelDate options)
      as (_ & _ & -> & _).
    apply filter_sorted, sort_by_sorted. }
  pose proof (resolveVersion_explanation versions purchaseDate travelDate
                options) as He.
  cbv zeta in He. fold r in He. rewrite He. clear He.
  destruct Hreason as [Hr|Hr].
  - rewrite Hr. unfold buildExplanation. rewrite Hf. split.
    + eexists (_ +:+ " En nyere versjon "), _.
      rewrite (string_app_assoc _ " En nyere versjon "). reflexivity.
    + intros _. exists (show_count (length (r_available r))). eexists.
      split; [|apply decimal_value_pretty].
      rewrite !string_app_assoc. reflexivity.
  - destruct (reason_OK_match versions purchaseDate travelDate options Hr)
      as [m Hm].
    fold r in Hm. rewrite Hr, Hm. unfold buildExplanation. rewrite Hf. split.
    + eexists (_ +:+ " En senere versjon "), _.
      rewrite (string_app_assoc _ " En senere versjon "). reflexivity.
    + intros [=].
Qed.

End ResolverTheorems.

(** ** The object store *)

Section StoreFacts.
Context `{fmt : Locale}.

Lemma lookup_kept (h k : Store.store) (l : Store.loc) (c : Store.cell) :
  h !! l = Some c -> (h ++ k) !! l = Some c.
Proof. apply lookup_app_l_Some. Qed.

Lemma assign_fresh (h : Store.store) (c0 c : Store.cell) :
  Store.assign (length h) c (h ++ [c0]) = Some (tt, h ++ [c]).
Proof.
  unfold Store.assign.
  destruct (decide _) as [_|Hn]; [|rewrite length_app in Hn; simpl in Hn; lia].
  by rewrite insert_app_r_alt, Nat.sub_diag.
Qed.

Lemma deref_kept (h k : Store.store) (l : Store.loc) (v : VersionRecord) :
  Store.deref h l = Some v -> Store.deref (h ++ k) l = Some v.
Proof.
  unfold Store.deref. destruct (h !! l) as [c|] eqn:E; [|done].
  by rewrite (lookup_kept h k l c E).
Qed.

Lemma objects_reads (h : Store.store) (elems : list Store.loc)
    (recs : list VersionRecord) :
  mapM (Store.deref h) elems = Some recs ->
  exists objs,
    Store.objects elems h = Some (objs, h) /\
    objs.*1 = elems /\ objs.*2 = recs /\ Forall (Store.reads h) objs.
Proof.
  revert recs. unfold Store.objects.
  induction elems as [|l elems IH]; intros recs Hm.
  - injection Hm as <-. exists []. by repeat split.
  - simpl in Hm. simpl.
    destruct (Store.deref h l) as [v|] eqn:Hv; [|done]. simpl in Hm.
    destruct (mapM (Store.deref h) elems) as [recs'|]; [|done].
    simpl in Hm. injection Hm as <-.
    destruct (IH recs' eq_refl) as (objs & Ho & H1 & H2 & HF).
    destruct (mapM _ elems) as [objs'|]; [|done].
    injection Ho as ->. simpl.
    exists ((l, v) :: objs). repeat split; simpl; [by f_equal..|].
    by constructor.
Qed.

Lemma mapM_option_cons {A B : Type} (f : A -> option B) (x : A) (l : list A) :
  mapM f (x :: l) = y ← f x; k ← mapM f l; Some (y :: k).
Proof. reflexivity. Qed.

Lemma reads_mapM (h k : Store.store) (objs : list Store.object) :
  Forall (Store.reads h) objs -> mapM (Store.deref (h ++ k)) objs.*1 = Some objs.*2.
Proof.
  induction 1 as [|o objs Ho _ IH]; [done|].
  change (mapM (Store.deref (h ++ k)) (o.1 :: objs.*1)
          = Some (o.2 :: objs.*2)).
  rewrite mapM_option_cons, (deref_kept h k _ _ Ho), IH. done.
Qed.

Lemma filter_snd (f : VersionRecord -> bool) (objs : list Store.object) :
  (List.filter (fun o : Store.object => f o.2) objs).*2 = List.filter f objs.*2.
Proof.
  induction objs as [|o objs IH]; [done|]. simpl.
  destruct (f o.2); simpl; [f_equal|]; exact IH.
Qed.

Lemma pick_newer_snd (acc : option Store.object) (cur : Store.object) :
  snd <$> Store.pick_newer acc cur = pick_newer (snd <$> acc) cur.2.
Proof.
  destruct acc as [a|]; [|done]. simpl.
  destruct (publishDate a.2 <? publishDate cur.2); [done|].
  by destruct (_ && _).
Qed.

Lemma fold_pick_newer_snd (objs : list Store.object) (acc : option Store.object) :
  snd <$> fold_left Store.pick_newer objs acc
  = fold_left pick_newer objs.*2 (snd <$> acc).
Proof.
  revert acc. induction objs as [|o objs IH]; intros acc; [done|].
  change (snd <$> fold_left Store.pick_newer objs (Store.pick_newer acc o)
          = fold_left pick_newer objs.*2 (pick_newer (snd <$> acc) o.2)).
  by rewrite IH, pick_newer_snd.
Qed.

Lemma fold_pick_newer_elem (objs : list Store.object) (acc m : Store.object) :
  fold_left Store.pick_newer objs (Some acc) = Some m -> m = acc \/ In m objs.
Proof.
  revert acc. induction objs as [|o objs IH]; intros acc; simpl.
  - intros [= ->]. by left.
  - destruct (publishDate acc.2 <? publishDate o.2);
      [|destruct (_ && _)]; intros H; apply IH in H as [->|H]; auto.
Qed.

Lemma bind_alloc (c : Store.cell) (B : Type) (k : Store.loc -> Store.M B)
    (h : Store.store) :
  Store.bind (Store.alloc c) k h = k (length h) (h ++ [c]).
Proof. done. Qed.

Lemma lookup_new (h k : Store.store) (i : nat) :
  (h ++ k) !! (length h + i)%nat = k !! i.
Proof. rewrite lookup_app_r by lia. f_equal. lia. Qed.

Lemma lookup_new_0 (h k : Store.store) : (h ++ k) !! (length h) = k !! 0%nat.
Proof. rewrite <- (lookup_new h k 0). f_equal. lia. Qed.

(** Past the guard, [resolveVersion] is its three remaining returns. *)
Lemma resolveVersion_nonempty (l : list VersionRecord) pd td o :
  l <> [] ->
  resolveVersion (VArray l) pd td o =
    let options := default empty_options o in
    let ie := destructure_inclusiveEnd options in
    let p := normalize pd in
    let t := normalize td in
    let sorted := sort_by publishDate l in
    let available := List.filter (fun v => publishDate v <=? p) sorted in
    let futureCovering :=
      List.filter (fun v => (p <? publishDate v) && inRange ie t v) sorted in
    match available with
    | [] =>
        baseResult None [] available futureCovering p t options
          NO_AVAILABLE_VERSIONS
          (buildExplanation None [] available futureCovering p t
             NO_AVAILABLE_VERSIONS ie)
    | _ :: _ =>
        let candidates := List.filter (inRange ie t) available in
        match candidates with
        | [] =>
            baseResult None candidates available futureCovering p t options
              NO_VERSION_COVERS_TRAVEL_DATE
              (buildExplanation None candidates available futureCovering p t
                 NO_VERSION_COVERS_TRAVEL_DATE ie)
        | _ :: _ =>
            let m := fold_left pick_newer candidates None in
            baseResult m candidates available futureCovering p t options OK
              (buildExplanation m candidates available futureCovering p t
                 OK ie)
        end
    end.
Proof. by destruct l. Qed.

Lemma fmap_match {A B C : Type} (f : A -> B) (l : list A) (x y : C) :
  match f <$> l with [] => x | _ :: _ => y end
  = match l with [] => x | _ :: _ => y end.
Proof. by destruct l. Qed.

(** The objects of a sublist are read through the same references. *)
Lemma reads_sublist (h : Store.store) (objs k : list Store.object) :
  Forall (Store.reads h) objs ->
  (forall x, In x k -> In x objs) ->
  Forall (Store.reads h) k /\ Forall (fun x => In x objs.*1) k.*1.
Proof.
  intros Hreads Hk. rewrite List.Forall_forall in Hreads.
  split; apply List.Forall_forall.
  - intros x Hx. auto.
  - intros x Hx. apply List.in_map_iff in Hx as (y & <- & Hy).
    apply List.in_map. auto.
Qed.

Lemma filter_In_l {A : Type} (f : A -> bool) (l k : list A) :
  (forall x, In x l -> In x k) -> forall x, In x (List.filter f l) -> In x k.
Proof. intros Hl x Hx. apply List.filter_In in Hx as [Hx _]. auto. Qed.

(** Run the allocations that remain and write the store as [h ++ new]. *)
Ltac run_allocs :=
  unfold Store.baseResult; rewrite !bind_alloc; unfold Store.alloc;
  rewrite <- !app_assoc; simpl; rewrite !length_app; simpl.

(** Find the new objects in [h ++ new]. *)
Ltac find_new := rewrite !lookup_new; simpl; rewrite ?lookup_new; simpl.

(** The run, the result object and the freshness of what it holds. *)
Ltac returns_new_result :=
  run_allocs; eexists _, _, _; split; [reflexivity|];
  split; [by rewrite lookup_new|];
  split; [repeat constructor; simpl; lia|]; split;
  [unfold Store.result_elements, Store.array_at; simpl; find_new
  |unfold Store.read_result, Store.read_array; find_new].

Lemma run_array (h : Store.store) (l e : Store.loc) (es : list Store.loc)
    (recs : list VersionRecord) pd td o :
  h !! l = Some (Store.CArray (e :: es)) ->
  mapM (Store.deref h) (e :: es) = Some recs ->
  exists r new res,
    Store.resolveVersion (Store.Ref l) pd td o h = Some (r, h ++ new) /\
    (h ++ new) !! r = Some (Store.CResult res) /\
    Forall (fun x => length h <= x)%nat (r :: Store.result_arrays res) /\
    Forall (fun x => In x (e :: es)) (Store.result_elements (h ++ new) res) /\
    Store.read_result (h ++ new) r = Some (resolveVersion (VArray recs) pd td o).
Proof.
  intros Hl Hm.
  destruct (objects_reads h _ _ Hm) as (objs & Hobjs & H1 & H2 & Hreads).
  (* the store side, up to the first branch *)
  unfold Store.resolveVersion, Store.bind at 1, Store.array_elements.
  rewrite Hl. unfold Store.bind at 1. rewrite Hobjs.
  rewrite bind_alloc. unfold Store.bind at 1. rewrite assign_fresh.
  rewrite !bind_alloc.
  (* the pure side, over the records behind the same objects *)
  rewrite resolveVersion_nonempty by (rewrite <- H2; destruct objs; done).
  cbv zeta.
  rewrite <- H2, <- (sort_by_fmap snd publishDate).
  rewrite <- (filter_snd (fun v => publishDate v <=? normalize pd)).
  rewrite <- (filter_snd (fun v => (normalize pd <? publishDate v)
                                   && inRange _ (normalize td) v)).
  rewrite <- (filter_snd (inRange _ (normalize td))).
  rewrite <- (fold_pick_newer_snd _ None), !fmap_match, <- H1.
  set (ie := destructure_inclusiveEnd (default empty_options o)).
  set (sorted := sort_by (fun o0 : Store.object => publishDate o0.2) objs).
  set (avail := List.filter _ sorted).
  set (fut := List.filter _ sorted).
  set (cand := List.filter _ avail).
  assert (Hsorted : forall x, In x sorted -> In x objs)
    by (intros x; apply sort_by_In).
  pose proof (filter_In_l _ _ _ Hsorted : forall x, In x avail -> _) as Havail.
  pose proof (filter_In_l _ _ _ Hsorted : forall x, In x fut -> _) as Hfut.
  pose proof (filter_In_l _ _ _ Havail : forall x, In x cand -> _) as Hcand.
  apply (reads_sublist h objs) in Havail as [Ra Ea], Hfut as [Rf Ef],
    Hcand as [Rc Ec]; try done.
  clear Hobjs Hsorted. clearbody sorted avail fut cand.
  destruct avail as [|a av]; cbv beta match.
  - (* nothing available *)
    returns_new_result.
    + by rewrite app_nil_r.
    + by rewrite (reads_mapM h _ _ Rf).
  - set (avail := a :: av) in *. clearbody avail. clear a av.
    rewrite bind_alloc.
    destruct (fold_left Store.pick_newer cand None) as [m|] eqn:Hp.
    + (* a match *)
      assert (Hm' : In m cand).
      { destruct cand as [|c cs]; [done|].
        apply fold_pick_newer_elem in Hp as [->|?]; [by left|by right]. }
      assert (Hmr : Store.reads h m).
      { rewrite List.Forall_forall in Rc. auto. }
      assert (Hme : In m.1 objs.*1).
      { rewrite List.Forall_forall in Ec. apply Ec. by apply List.in_map. }
      destruct cand as [|c cs]; [done|]. cbv beta match.
      set (cand := c :: cs) in *. clearbody cand. clear c cs.
      returns_new_result.
      * rewrite !Forall_app. repeat split; try done. by repeat constructor.
      * rewrite (reads_mapM h _ _ Rf), (reads_mapM h _ _ Ra),
          (reads_mapM h _ _ Rc), (deref_kept h _ _ _ Hmr).
        done.
    + destruct cand as [|c cs]; cbv beta match.
      * (* available, but no candidate *)
        returns_new_result.
        -- rewrite !Forall_app. repeat split; done.
        -- by rewrite (reads_mapM h _ _ Rf), (reads_mapM h _ _ Ra).
      * apply (f_equal (fmap snd)) in Hp. rewrite fold_pick_newer_snd in Hp.
        by apply fold_pick_newer_None in Hp.
Qed.

Lemma run_no_versions (h : Store.store) (versions : Store.value)
    (elems : option (list Store.loc)) p t o :
  Store.array_elements versions h = Some (elems, h) ->
  elems = None \/ elems = Some [] ->
  Store.resolveVersion versions p t o h =
    Some ((length h + 7)%nat,
          h ++ [Store.CArray []; Store.CArray []; Store.CArray [];
                Store.CArray []; Store.CArray []; Store.CArray [];
                Store.COptions
                  (strict_ne_false (inclusiveEnd (default empty_options o)));
                Store.CResult
                  {| Store.o_match := None;
                     Store.o_reason := NO_AVAILABLE_VERSIONS;
                     Store.o_candidates := length h;
                     Store.o_available := length h + 1;
                     Store.o_futureCovering := length h + 2;
                     Store.o_purchaseDate := normalize p;
                     Store.o_travelDate := normalize t;
                     Store.o_options := length h + 6;
                     Store.o_explanation :=
                       buildExplanation None [] [] [] (normalize p)
                         (normalize t) NO_AVAILABLE_VERSIONS
                         (destructure_inclusiveEnd (default empty_options o))
                  |}]).
Proof.
  intros He Hcase. unfold Store.resolveVersion, Store.bind at 1. rewrite He.
  destruct Hcase as [-> | ->];
    unfold Store.baseResult; rewrite !bind_alloc; unfold Store.alloc;
    rewrite <- !app_assoc; simpl; rewrite !length_app; simpl; reflexivity.
Qed.

Lemma read_versions_kept (h new : Store.store) (versions : Store.value)
    (va : versions_arg) :
  Store.read_versions h versions = Some va ->
  Store.read_versions (h ++ new) versions = Some va.
Proof.
  destruct versions as [l|x]; [|done]. simpl.
  destruct (h !! l) as [c|] eqn:Hl; [|done].
  rewrite (lookup_kept h new l c Hl).
  destruct c as [v|elems|b|r]; try done.
  destruct (mapM (Store.deref h) elems) as [recs|] eqn:Hm; [|done].
  destruct (objects_reads h elems recs Hm) as (objs & _ & <- & <- & Hr).
  by rewrite (reads_mapM h new objs Hr).
Qed.

(** A call on a store whose [versions] reads back as [va]: it returns, the
    store is the old one followed by new objects, the result and the arrays
    it holds are new, the references in them are the caller's, and the result
    reads back as the pure resolver's. *)
Lemma resolveVersion_run (h : Store.store) (versions : Store.value)
    (va : versions_arg) p t o :
  Store.read_versions h versions = Some va ->
  exists (r : Store.loc) (new : Store.store) (res : Store.ResultObject),
    Store.resolveVersion versions p t o h = Some (r, h ++ new) /\
    (h ++ new) !! r = Some (Store.CResult res) /\
    Forall (fun x => length h <= x)%nat (r :: Store.result_arrays res) /\
    Forall (fun x => In x (Store.value_elements h versions))
      (Store.result_elements (h ++ new) res) /\
    Store.read_result (h ++ new) r = Some (resolveVersion va p t o).
Proof.
  intros Hv.
  assert (Hnone : forall x,
    Store.array_elements versions h = Some (None, h) \/
    Store.array_elements versions h = Some (Some [], h) ->
    va = VNotArray x \/ va = VArray [] ->
    exists r new res,
      Store.resolveVersion versions p t o h = Some (r, h ++ new) /\
      (h ++ new) !! r = Some (Store.CResult res) /\
      Forall (fun x => length h <= x)%nat (r :: Store.result_arrays res) /\
      Forall (fun x => In x (Store.value_elements h versions))
        (Store.result_elements (h ++ new) res) /\
      Store.read_result (h ++ new) r = Some (resolveVersion va p t o)).
  { intros x He Hva. eexists _, _, _. split.
    { destruct He as [He|He];
        apply (run_no_versions h versions _ p t o He); auto. }
    split; [by rewrite lookup_new|].
    split; [repeat constructor; simpl; lia|].
    split.
    - unfold Store.result_elements, Store.array_at. simpl.
      rewrite !lookup_new, lookup_new_0. simpl. constructor.
    - unfold Store.read_result, Store.read_array. find_new.
      rewrite lookup_new_0. simpl. by destruct Hva as [-> | ->]. }
  destruct versions as [l|x]; simpl in Hv.
  - destruct (h !! l) as [c|] eqn:Hl; [|done].
    destruct c as [v|elems|b|r].
    + injection Hv as <-. apply (Hnone JObject); [left|by left].
      unfold Store.array_elements. by rewrite Hl.
    + destruct (mapM (Store.deref h) elems) as [recs|] eqn:Hm; [|done].
      injection Hv as <-. destruct elems as [|e es].
      * injection Hm as <-. apply (Hnone JObject); [right|by right].
        unfold Store.array_elements. by rewrite Hl.
      * unfold Store.value_elements, Store.array_at. rewrite Hl.
        by apply run_array.
    + injection Hv as <-. apply (Hnone JObject); [left|by left].
      unfold Store.array_elements. by rewrite Hl.
    + injection Hv as <-. apply (Hnone JObject); [left|by left].
      unfold Store.array_elements. by rewrite Hl.
  - injection Hv as <-. apply (Hnone x); [by left|by left].
Qed.

(** C8: on a store where [versions] is an array of records, or not an
    array, the call returns; every object the caller had is unchanged, so the
    caller's array and its records read back as before; the result object,
    its three arrays and its options object did not exist before the call;
    the arrays and the match hold references of the caller's array; and the
    result reads back as the pure resolver's. *)
Theorem resolveVersion_leaves_inputs
    (h : Store.store) (versions : Store.value) (va : versions_arg)
    (purchaseDate travelDate : instant_arg) (options : option ResolveOptions) :
  Store.read_versions h versions = Some va ->
  exists (r : Store.loc) (new : Store.store) (res : Store.ResultObject),
    Store.resolveVersion versions purchaseDate travelDate options h
      = Some (r, h ++ new) /\
    (forall l c, h !! l = Some c -> (h ++ new) !! l = Some c) /\
    Store.read_versions (h ++ new) versions = Some va /\
    (h ++ new) !! r = Some (Store.CResult res) /\
    Forall (fun l => h !! l = None) (r :: Store.result_arrays res) /\
    Forall (fun l => In l (Store.value_elements h versions))
      (Store.result_elements (h ++ new) res) /\
    Store.read_result (h ++ new) r
      = Some (resolveVersion va purchaseDate travelDate options).
Proof.
  intros Hv.
  destruct (resolveVersion_run h versions va purchaseDate travelDate options Hv)
    as (r & new & res & Hrun & Hr & Hfresh & Helems & Hread).
  exists r, new, res. split; [done|].
  split; [intros l c; apply lookup_kept|].
  split; [by apply read_versions_kept|].
  split; [done|]. split; [|done].
  eapply List.Forall_impl; [|exact Hfresh].
  intros l Hl. by apply lookup_ge_None.
Qed.

(** C6: when [versions] is the empty array or not an array, the result is
    that of the short circuit: reason NO_AVAILABLE_VERSIONS, no match, and
    [candidates], [available] and [futureCovering] empty.  On any store the
    call returns, and the only new objects are the six array literals, the
    options object and the result: nothing is copied, sorted or filtered. *)
Theorem resolveVersion_no_versions
    (purchaseDate travelDate : instant_arg) (options : option ResolveOptions) :
  (forall versions : versions_arg,
     versions = VArray [] \/ (exists x, versions = VNotArray x) ->
     let r := resolveVersion versions purchaseDate travelDate options in
     r_reason r = NO_AVAILABLE_VERSIONS /\ r_match r = None /\
     r_candidates r = [] /\ r_available r = [] /\ r_futureCovering r = []) /\
  (forall (h : Store.store) (versions : Store.value)
          (elems : option (list Store.loc)),
     Store.array_elements versions h = Some (elems, h) ->
     elems = None \/ elems = Some [] ->
     Store.resolveVersion versions purchaseDate travelDate options h =
       Some ((length h + 7)%nat,
             h ++ [Store.CArray []; Store.CArray []; Store.CArray [];
                   Store.CArray []; Store.CArray []; Store.CArray [];
                   Store.COptions
                     (strict_ne_false
                        (inclusiveEnd (default empty_options options)));
                   Store.CResult
                     {| Store.o_match := None;
                        Store.o_reason := NO_AVAILABLE_VERSIONS;
                        Store.o_candidates := length h;
                        Store.o_available := length h + 1;
                        Store.o_futureCovering := length h + 2;
                        Store.o_purchaseDate := normalize purchaseDate;
                        Store.o_travelDate := normalize travelDate;
                        Store.o_options := length h + 6;
                        Store.o_explanation :=
                          buildExplanation None [] [] []
                            (normalize purchaseDate) (normalize travelDate)
                            NO_AVAILABLE_VERSIONS
                            (destructure_inclusiveEnd
                               (default empty_options options)) |}])).
Proof.
  split.
  - intros versions [->|[x ->]]; repeat split.
  - intros h versions elems. apply run_no_versions.
Qed.

End StoreFacts.

(** ** Scenarios *)

Example one_version_covers :
  let r := @resolveVersion decimal_locale (VArray [v1]) (Millis 150)
             (Millis 150) None in
  r_reason r = OK /\ r_match r = Some v1 /\
  @resolveVersionName decimal_locale (VArray [v1]) (Millis 150) (Millis 150)
    None = Some "v1".
Proof. repeat split. Qed.

Example purchase_before_publication :
  let r := @resolveVersion decimal_locale (VArray [v1]) (Millis 50)
             (Millis 150) None in
  r_reason r = NO_AVAILABLE_VERSIONS /\ r_match r = None /\
  r_futureCovering r = [v1].
Proof. repeat split. Qed.

Example travel_after_close :
  r_reason (@resolveVersion decimal_locale (VArray [v1]) (Millis 150)
              (Millis 300) None)
  = NO_VERSION_COVERS_TRAVEL_DATE.
Proof. reflexivity. Qed.

Example later_publication_wins :
  r_match (@resolveVersion decimal_locale (VArray [v1; v2]) (Millis 160)
             (DateObj 150) None)
  = Some v2.
Proof. reflexivity. Qed.

Example exclusive_end :
  let r := @resolveVersion decimal_locale (VArray [v1]) (Millis 150)
             (Millis 200) (with_inclusiveEnd (JBool false)) in
  r_candidates r = [] /\ r_reason r = NO_VERSION_COVERS_TRAVEL_DATE /\
  r_options r = false.
Proof. repeat split. Qed.

Example explanation_with_future_version :
  r_explanation (@resolveVersion decimal_locale (VArray [v1; v2]) (Millis 120)
                   (Millis 300) None)
  = "Det fantes 1 publiserte versjon(er) på kjøpsdato 120, men ingen hadde en gyldighetsperiode som dekker reisedato 300. (Sluttdato er inkludert).".
Proof. reflexivity. Qed.

Example explanation_with_count_and_aside :
  r_explanation (@resolveVersion decimal_locale (VArray [v3; v1]) (Millis 120)
                   (Millis 260) None)
  = "Det fantes 1 publiserte versjon(er) på kjøpsdato 120, men ingen hadde en gyldighetsperiode som dekker reisedato 260. (Sluttdato er inkludert). En nyere versjon (v3, publisert 300) ville ha dekket reisedatoen men var ikke tilgjengelig ved kjøp.".
Proof. reflexivity. Qed.

Example numerals_read :
  decimal_value "1" = Some 1%nat /\ decimal_value "12" = Some 12%nat /\
  decimal_value "0" = Some 0%nat /\ decimal_value "" = None /\
  decimal_value "01" = None /\ decimal_value "1 " = None.
Proof. by repeat split. Qed.

Example store_run_on_sample :
  @Store.resolveVersion decimal_locale (Store.Ref 2%nat) (Millis 120)
    (Millis 150) None Store.sample_store
  = Some (8%nat,
          Store.sample_store ++
          [Store.CArray [0; 1]%nat; Store.CArray [0%nat]; Store.CArray [1%nat];
           Store.CArray [0%nat]; Store.COptions true;
           Store.CResult
             {| Store.o_match := Some 0%nat;
                Store.o_reason := OK;
                Store.o_candidates := 6%nat;
                Store.o_available := 4%nat;
                Store.o_futureCovering := 5%nat;
                Store.o_purchaseDate := 120;
                Store.o_travelDate := 150;
                Store.o_options := 7%nat;
                Store.o_explanation :=
                  "v1 fordi den var publisert (100 er før kjøpsdato 120) og reisedato 150 ligger innenfor gyldighetsperioden 100 – 200 (inkludert slutt). En senere versjon (v2, publisert 150) ville også dekke reisedatoen men var ikke publisert på kjøpsdato."
             |}]).
Proof. reflexivity. Qed.

(** ** The statements at sample inputs *)


(** [inclusiveEnd: null] is not strictly false, and is echoed as true; but
    the record whose window ends at the travel instant is not a candidate. *)
Lemma null_inclusiveEnd_excludes_end :
  let r := @resolveVersion decimal_locale (VArray [v1]) (Millis 150)
             (Millis 200) (with_inclusiveEnd JNull) in
  JNull <> JBool false /\
  r_options r = true /\
  In v1 (r_available r) /\
  (open v1 <= 200 /\ 200 <= close v1) /\
  ~ In v1 (r_candidates r) /\
  r_reason r = NO_VERSION_COVERS_TRAVEL_DATE.
Proof.
  repeat split; [discriminate|by left|done..|by intros []].
Qed.

Lemma resolveVersion_selects_newest_sample :
  let r := @resolveVersion decimal_locale (VArray [v1; v2]) (Millis 160)
             (Millis 150) None in
  r_candidates r <> [] /\
  r_reason r = OK /\
  StronglySorted pd_le (r_candidates r) /\
  exists m before after,
    r_match r = Some m /\
    r_candidates r = before ++ m :: after /\
    Forall (fun c => older c m) before /\
    Forall (fun c => not_newer c m) after.
Proof.
  split; [discriminate|].
  apply (@resolveVersion_selects_newest decimal_locale (VArray [v1; v2])
           (Millis 160) (Millis 150) None).
  discriminate.
Defined.


Lemma inclusiveEnd_applied_is_echoed_sample :
  let r := @resolveVersion decimal_locale (VArray [v1]) (Millis 150)
             (Millis 200) None in
  (r_options r = true <-> JUndefined <> JBool false) /\
  (forall v,
     inRange (destructure_inclusiveEnd (default empty_options None)) 200 v = true
     <-> covers (r_options r) 200 v) /\
  (forall v, In v (r_candidates r) <->
     In v (r_available r) /\ covers (r_options r) 200 v) /\
  (forall v, In v (r_futureCovering r) <->
     In v [v1] /\ 150 < publishDate v /\ covers (r_options r) 200 v).
Proof.
  apply (@inclusiveEnd_applied_is_echoed decimal_locale (VArray [v1])
           (Millis 150) (Millis 200) None).
  by left.
Defined.

Lemma end_boundary_law_sample :
  In v1 (r_candidates (@resolveVersion decimal_locale (VArray [v1])
                         (Millis 150) (Millis 200)
                         (with_inclusiveEnd (JBool true)))) /\
  ~ In v1 (r_candidates (@resolveVersion decimal_locale (VArray [v1])
                           (Millis 150) (Millis 200)
                           (with_inclusiveEnd (JBool false)))) /\
  (open v1 = close v1 ->
   forall t : instant_arg,
     In v1 (r_candidates (@resolveVersion decimal_locale (VArray [v1])
                            (Millis 150) t (with_inclusiveEnd (JBool true))))
     <-> normalize t = open v1).
Proof.
  apply (@end_boundary_law decimal_locale [v1] v1 (Millis 150) (Millis 200)).
  - by left.
  - simpl. lia.
  - simpl. lia.
  - reflexivity.
Defined.

Lemma available_monotone_sample :
  normalize (Millis 120) <= normalize (Millis 160) /\
  forall v,
    In v (r_available (@resolveVersion decimal_locale (VArray [v1; v2])
                         (Millis 120) (Millis 150) None)) ->
    In v (r_available (@resolveVersion decimal_locale (VArray [v1; v2])
                         (Millis 160) (Millis 150) None)).
Proof.
  split; [simpl; lia|].
  apply (@available_monotone decimal_locale [v1; v2] (Millis 150) None
           (Millis 120) (Millis 160)).
  simpl. lia.
Defined.

Lemma explanation_names_latest_future_sample :
  let r := @resolveVersion decimal_locale (VArray [v3; v1]) (Millis 120)
             (Millis 260) None in
  r_futureCovering r <> [] /\
  r_reason r = NO_VERSION_COVERS_TRAVEL_DATE /\
  exists f,
    last (r_futureCovering r) = Some f /\
    Forall (fun g => publishDate g <= publishDate f) (r_futureCovering r) /\
    (exists pre post,
       r_explanation r =
         pre +:+ "(" +:+ version f +:+ ", publisert "
           +:+ decimal_locale (publishDate f) +:+ ")" +:+ post) /\
    (r_reason r = NO_VERSION_COVERS_TRAVEL_DATE ->
     exists count rest,
       r_explanation r =
         "Det fantes " +:+ count
           +:+ " publiserte versjon(er) på kjøpsdato " +:+ rest /\
       decimal_value count = Some (length (r_available r))).
Proof.
  split; [discriminate|]. split; [reflexivity|].
  apply (@explanation_names_latest_future decimal_locale (VArray [v3; v1])
           (Millis 120) (Millis 260) None).
  - discriminate.
  - by left.
Defined.

Lemma resolveVersion_leaves_inputs_sample :
  Store.read_versions Store.sample_store (Store.Ref 2%nat)
    = Some (VArray [v2; v1]) /\
  exists (r : Store.loc) (new : Store.store) (res : Store.ResultObject),
    @Store.resolveVersion decimal_locale (Store.Ref 2%nat) (Millis 160)
      (Millis 150) None Store.sample_store
      = Some (r, Store.sample_store ++ new) /\
    (forall l c, Store.sample_store !! l = Some c ->
                 (Store.sample_store ++ new) !! l = Some c) /\
    Store.read_versions (Store.sample_store ++ new) (Store.Ref 2%nat)
      = Some (VArray [v2; v1]) /\
    (Store.sample_store ++ new) !! r = Some (Store.CResult res) /\
    Forall (fun l => Store.sample_store !! l = None)
      (r :: Store.result_arrays res) /\
    Forall (fun l => In l (Store.value_elements Store.sample_store
                             (Store.Ref 2%nat)))
      (Store.result_elements (Store.sample_store ++ new) res) /\
    Store.read_result (Store.sample_store ++ new) r
      = Some (@resolveVersion decimal_locale (VArray [v2; v1]) (Millis 160)
                (Millis 150) None).
Proof.
  split; [reflexivity|].
  apply (@resolveVersion_leaves_inputs decimal_locale Store.sample_store
           (Store.Ref 2%nat) (VArray [v2; v1]) (Millis 160) (Millis 150) None).
  reflexivity.
Defined.

(** ** More on the resolver: names, purchase dates, coverage *)

Section ResolverMore.
Context `{fmt : Locale}.

Lemma resolveVersionName_match versions purchaseDate travelDate options :
  resolveVersionName versions purchaseDate travelDate options
  = version <$> r_match (resolveVersion versions purchaseDate travelDate options).
Proof. unfold resolveVersionName. by destruct (r_match _). Qed.

Lemma candidates_elements versions purchaseDate travelDate options v :
  In v (r_candidates (resolveVersion versions purchaseDate travelDate options))
  <-> In v (elements versions) /\ publishDate v <= normalize purchaseDate /\
      covers (inclusiveEnd_applied options) (normalize travelDate) v.
Proof.
  destruct versions as [l|x]; [apply candidates_In|].
  simpl. unfold resolveVersion. simpl. tauto.
Qed.

Lemma futureCovering_elements versions purchaseDate travelDate options v :
  In v (r_futureCovering (resolveVersion versions purchaseDate travelDate options))
  <-> In v (elements versions) /\ normalize purchaseDate < publishDate v /\
      covers (inclusiveEnd_applied options) (normalize travelDate) v.
Proof.
  destruct (resolveVersion_fields versions purchaseDate travelDate options)
    as (_ & _ & -> & _).
  rewrite List.filter_In, sort_by_In, andb_true_iff, Z.ltb_lt, inRange_covers.
  unfold inclusiveEnd_applied. tauto.
Qed.

Lemma match_candidates versions purchaseDate travelDate options :
  let r := resolveVersion versions purchaseDate travelDate options in
  r_match r = fold_left pick_newer (r_candidates r) None.
Proof.
  destruct (resolveVersion_fields versions purchaseDate travelDate options)
    as (_ & Hc & _ & Hm & _).
  cbv zeta. by rewrite Hm, Hc.
Qed.

(** X1: [resolveVersionName] returns null exactly when no element of
    [versions] is both published at or before the purchase instant and
    covering the travel instant; in particular for every value that is not
    an array. *)
Theorem resolveVersionName_null_iff
    (versions : versions_arg) (purchaseDate travelDate : instant_arg)
    (options : option ResolveOptions) :
  resolveVersionName versions purchaseDate travelDate options = None <->
  forall v, In v (elements versions) ->
            publishDate v <= normalize purchaseDate ->
            ~ covers (inclusiveEnd_applied options) (normalize travelDate) v.
Proof.
  rewrite resolveVersionName_match, fmap_None, match_candidates,
    fold_pick_newer_None.
  split.
  - intros Hnil v Hv Hp Hc.
    assert (Hin : In v (r_candidates
              (resolveVersion versions purchaseDate travelDate options)))
      by (by apply candidates_elements).
    by rewrite Hnil in Hin.
  - intros Hno.
    destruct (r_candidates _) as [|c cs] eqn:E; [done|].
    assert (Hin : In c (r_candidates
              (resolveVersion versions purchaseDate travelDate options)))
      by (rewrite E; by left).
    apply candidates_elements in Hin as (Hv & Hp & Hc).
    by destruct (Hno c).
Qed.

(** X2: a name returned by [resolveVersionName] is the version of an
    element of [versions] that is published at or before the purchase
    instant and covers the travel instant, and no other such element has a
    later publishDate, or the same publishDate and a later open. *)
Theorem resolveVersionName_names_newest
    (versions : versions_arg) (purchaseDate travelDate : instant_arg)
    (options : option ResolveOptions) (name : string) :
  resolveVersionName versions purchaseDate travelDate options = Some name ->
  exists m,
    version m = name /\
    In m (elements versions) /\
    publishDate m <= normalize purchaseDate /\
    covers (inclusiveEnd_applied options) (normalize travelDate) m /\
    forall c, In c (elements versions) ->
              publishDate c <= normalize purchaseDate ->
              covers (inclusiveEnd_applied options) (normalize travelDate) c ->
              not_newer c m.
Proof.
  rewrite resolveVersionName_match, fmap_Some.
  intros (m & Hm & ->). exists m. split; [done|].
  rewrite match_candidates in Hm.
  apply fold_pick_newer_In in Hm as [Hin Hall].
  apply candidates_elements in Hin as Hin'.
  destruct Hin' as (Hv & Hp & Hc). do 3 (split; [done|]).
  intros c Hcv Hcp Hcc. rewrite List.Forall_forall in Hall.
  apply Hall. by apply candidates_elements.
Qed.

(** X3: with the versions, the travel date and the options fixed, a later
    purchase instant keeps every candidate, and every future-covering record
    either stays future-covering or becomes a candidate; nothing becomes
    future-covering. *)
Theorem later_purchase_moves_future_to_candidates
    (versions : versions_arg) (travelDate : instant_arg)
    (options : option ResolveOptions) (p1 p2 : instant_arg) :
  normalize p1 <= normalize p2 ->
  let r1 := resolveVersion versions p1 travelDate options in
  let r2 := resolveVersion versions p2 travelDate options in
  (forall v, In v (r_candidates r1) -> In v (r_candidates r2)) /\
  (forall v, In v (r_futureCovering r2) -> In v (r_futureCovering r1)) /\
  (forall v, In v (r_futureCovering r1) ->
             In v (r_futureCovering r2) \/ In v (r_candidates r2)).
Proof.
  intros Hle r1 r2. unfold r1, r2. repeat split; intros v;
    rewrite ?candidates_elements, ?futureCovering_elements.
  - intros (? & ? & ?). split; [done|]. split; [lia|done].
  - intros (? & ? & ?). split; [done|]. split; [lia|done].
  - intros (? & ? & ?).
    destruct (Z_lt_le_dec (normalize p2) (publishDate v)); [left|right];
      (split; [done|]; split; [lia|done]).
Qed.

(** X4: with the versions, the travel date and the options fixed, a match
    at one purchase instant is followed at every later purchase instant by a
    match that is not older: its publishDate is greater, or equal with an
    open that is not smaller. *)
Theorem later_purchase_never_older
    (versions : versions_arg) (travelDate : instant_arg)
    (options : option ResolveOptions) (p1 p2 : instant_arg)
    (m1 : VersionRecord) :
  normalize p1 <= normalize p2 ->
  r_match (resolveVersion versions p1 travelDate options) = Some m1 ->
  exists m2,
    r_match (resolveVersion versions p2 travelDate options) = Some m2 /\
    not_newer m1 m2.
Proof.
  intros Hle H1. rewrite match_candidates in H1.
  apply fold_pick_newer_In in H1 as [Hin1 _].
  assert (Hin2 : In m1 (r_candidates
            (resolveVersion versions p2 travelDate options))).
  { apply candidates_elements in Hin1 as (? & ? & ?).
    apply candidates_elements. split; [done|]. split; [lia|done]. }
  rewrite match_candidates.
  destruct (fold_left pick_newer _ None) as [m2|] eqn:E.
  - exists m2. split; [done|].
    apply fold_pick_newer_In in E as [_ Hall].
    rewrite List.Forall_forall in Hall. by apply Hall.
  - apply fold_pick_newer_None in E. by rewrite E in Hin2.
Qed.

Lemma filter_split {A : Type} (f g : A -> bool) (l : list A) :
  Permutation
    (List.filter g (List.filter f l)
       ++ List.filter (fun x => negb (f x) && g x) l)
    (List.filter g l).
Proof.
  induction l as [|x l IH]; [done|]. simpl.
  destruct (f x) eqn:Hf, (g x) eqn:Hg; simpl; rewrite ?Hg; simpl.
  - by constructor.
  - done.
  - symmetry. apply Permutation_cons_app. by symmetry.
  - done.
Qed.

Lemma filter_Permutation_bool {A : Type} (f : A -> bool) (l k : list A) :
  Permutation l k -> Permutation (List.filter f l) (List.filter f k).
Proof.
  induction 1 as [|x l k _ IH|x y l|l k j _ IH1 _ IH2]; simpl.
  - done.
  - destruct (f x); [by constructor|done].
  - destruct (f x), (f y); try done. apply perm_swap.
  - by etransitivity.
Qed.

(** X5: the candidates and the future-covering records together are,
    with their multiplicities, the elements of [versions] whose window
    covers the travel instant. *)
Theorem covering_is_candidates_and_future
    (versions : versions_arg) (purchaseDate travelDate : instant_arg)
    (options : option ResolveOptions) :
  let r := resolveVersion versions purchaseDate travelDate options in
  Permutation
    (r_candidates r ++ r_futureCovering r)
    (List.filter
       (inRange (destructure_inclusiveEnd (default empty_options options))
          (normalize travelDate))
       (elements versions)).
Proof.
  destruct (resolveVersion_fields versions purchaseDate travelDate options)
    as (_ & Hc & Hf & _).
  cbv zeta. rewrite Hc, Hf.
  etransitivity;
    [|apply filter_Permutation_bool, (sort_by_Permutation publishDate)].
  etransitivity;
    [|apply (filter_split (fun v => publishDate v <=? normalize purchaseDate))].
  apply Permutation_app_head.
  erewrite List.filter_ext; [reflexivity|].
  intros v. simpl. f_equal. apply Z.ltb_antisym.
Qed.

(** X6: for the same call with [inclusiveEnd] true and false, the
    candidates with the end included are those with the end excluded
    together with the available records whose window ends at the travel
    instant. *)
Theorem inclusive_adds_records_ending_at_travel
    (versions : versions_arg) (purchaseDate travelDate : instant_arg)
    (v : VersionRecord) :
  In v (r_candidates (resolveVersion versions purchaseDate travelDate
                        (with_inclusiveEnd (JBool true))))
  <->
  In v (r_candidates (resolveVersion versions purchaseDate travelDate
                        (with_inclusiveEnd (JBool false))))
  \/ (In v (r_available (resolveVersion versions purchaseDate travelDate
                           (with_inclusiveEnd (JBool false))))
      /\ open v <= normalize travelDate /\ close v = normalize travelDate).
Proof.
  rewrite !candidates_elements.
  destruct (resolveVersion_fields versions purchaseDate travelDate
              (with_inclusiveEnd (JBool false))) as (-> & _).
  rewrite List.filter_In, sort_by_In, Z.leb_le.
  change (inclusiveEnd_applied (with_inclusiveEnd (JBool true))) with true.
  change (inclusiveEnd_applied (with_inclusiveEnd (JBool false))) with false.
  unfold covers. split.
  - intros (Hv & Hp & Ho & Hc).
    destruct (Z.eq_dec (close v) (normalize travelDate)); [by right|left].
    split; [done|]. split; [done|]. split; [done|lia].
  - intros [(Hv & Hp & Ho & Hc)|((Hv & Hp) & Ho & Hc)];
      (split; [done|]; split; [done|]; split; [done|lia]).
Qed.

Lemma string_app_nil (a b : string) : a +:+ b = "" -> a = "" /\ b = "".
Proof. destruct a; [done|]. discriminate. Qed.

Lemma explanation_nonempty versions purchaseDate travelDate options :
  r_explanation (resolveVersion versions purchaseDate travelDate options) <> "".
Proof.
  pose proof (resolveVersion_explanation versions purchaseDate travelDate
                options) as He.
  cbv zeta in He. rewrite He. clear He.
  destruct (r_reason _) eqn:Hr.
  - destruct (reason_OK_match versions purchaseDate travelDate options Hr)
      as [m ->].
    unfold buildExplanation.
    destruct (last _); destruct (_ <? _)%nat; intros H;
      repeat (apply string_app_nil in H as [? H]); discriminate.
  - unfold buildExplanation. intros H.
    by apply string_app_nil in H as [? _].
  - unfold buildExplanation.
    destruct (last _); intros H; by apply string_app_nil in H as [H _];
      try apply string_app_nil in H as [? _].
Qed.

(** X7: the explanation of a result is never the empty string: the
    final [return ''] of [buildExplanation] is not reached from
    [resolveVersion]. *)
Theorem explanation_never_empty
    (versions : versions_arg) (purchaseDate travelDate : instant_arg)
    (options : option ResolveOptions) :
  r_explanation (resolveVersion versions purchaseDate travelDate options) <> "".
Proof. apply explanation_nonempty. Qed.

End ResolverMore.

(** ** The resolved-version display *)

Section DisplayFacts.
Context `{fmt : Locale}.

Lemma match_Some_iff_OK versions purchaseDate travelDate options :
  is_Some (r_match (resolveVersion versions purchaseDate travelDate options))
  <-> r_reason (resolveVersion versions purchaseDate travelDate options) = OK.
Proof.
  split; [|intros H; by apply reason_OK_match in H as [m ->]].
  destruct (resolveVersion_fields versions purchaseDate travelDate options)
    as (_ & _ & _ & Hm & Hr & _).
  rewrite Hm, Hr.
  destruct (List.filter (fun v => publishDate v <=? _) _);
    [by intros [? [=]]|].
  destruct (List.filter _ (_ :: _)); [by intros [? [=]]|done].
Qed.

(** X8: when the page has the element [resolved-version], its content
    after [updateResolvedVersionUI] is a header followed by the explanation
    in a [div]; the header names the match and its publish date when the
    reason is OK and is the sentence of the reason otherwise, so neither the
    [default] header of the [switch] nor an omitted explanation occurs. *)
Theorem display_is_header_and_explanation
    (cm : ChartManager.t) (doc : document) (old : string) :
  doc !! "resolved-version" = Some old ->
  let r := ChartManager.resolve cm in
  exists header,
    (ChartManager.updateResolvedVersionUI cm doc).2
    = <["resolved-version" :=
          header +:+ "<div style=" +:+ dquote
            +:+ "margin-top:4px;font-size:12px;line-height:1.35;color:#555;"
            +:+ dquote +:+ ">" +:+ r_explanation r +:+ "</div>"]> doc /\
    match r_reason r with
    | OK =>
        exists m, r_match r = Some m /\
          header = "Gyldig versjon: <strong>" +:+ version m
                     +:+ "</strong> (publisert " +:+ fmt (publishDate m) +:+ ")"
    | NO_AVAILABLE_VERSIONS =>
        header = "Gyldig versjon: <strong>Ingen</strong> (ingen versjoner publisert ennå)"
    | NO_VERSION_COVERS_TRAVEL_DATE =>
        header = "Gyldig versjon: <strong>Ingen</strong> (ingen publisert versjon dekker reisedato)"
    end.
Proof.
  intros Hel r. unfold ChartManager.updateResolvedVersionUI. rewrite Hel.
  cbv zeta. fold r.
  assert (Hne : nonempty (r_explanation r) = true).
  { unfold nonempty. apply negb_true_iff, String.eqb_neq.
    apply explanation_nonempty. }
  rewrite Hne. eexists. split; [reflexivity|].
  destruct (r_reason r) eqn:Hr.
  - destruct (reason_OK_match _ _ _ _ Hr) as [m Hm].
    change (r_match r = Some m) in Hm. exists m. by rewrite Hm.
  - destruct (r_match r) as [m|] eqn:Hm; [|done].
    assert (HOK : r_reason r = OK)
      by (apply (match_Some_iff_OK (VArray _)); by exists m).
    congruence.
  - destruct (r_match r) as [m|] eqn:Hm; [|done].
    assert (HOK : r_reason r = OK)
      by (apply (match_Some_iff_OK (VArray _)); by exists m).
    congruence.
Qed.

(** X9: when the page has the element and the series is set, after
    [updateResolvedVersionUI] a column is coloured as the valid one exactly
    when its record has the version of the match; some column of
    [chartData] is so coloured exactly when the reason is OK. *)
Theorem highlight_follows_match
    (cm : ChartManager.t) (doc : document) (old : string) :
  doc !! "resolved-version" = Some old ->
  ChartManager.series cm = true ->
  let r := ChartManager.resolve cm in
  let cm' := (ChartManager.updateResolvedVersionUI cm doc).1 in
  ChartManager.chartData cm' = ChartManager.chartData cm /\
  (forall d : ChartRecord,
     ChartManager.column_color cm' (Some (Some d)) = "#181C56" <->
     exists m, r_match r = Some m /\ version d = version m) /\
  ((exists d : ChartRecord,
      In d (ChartManager.chartData cm) /\
      ChartManager.column_color cm' (Some (Some d)) = "#181C56")
   <-> r_reason r = OK).
Proof.
  intros Hel Hs r cm'.
  assert (Hcm : cm' = {| ChartManager.chartData := ChartManager.chartData cm;
                         ChartManager.purchaseDate := ChartManager.purchaseDate cm;
                         ChartManager.travelDate := ChartManager.travelDate cm;
                         ChartManager.series := true;
                         ChartManager.currentValidVersion := version <$> r_match r |}).
  { unfold cm', ChartManager.updateResolvedVersionUI. rewrite Hel. simpl.
    unfold ChartManager.updateVersionHighlight. by rewrite Hs. }
  assert (Hcol : forall d : ChartRecord,
     ChartManager.column_color cm' (Some (Some d)) = "#181C56" <->
     exists m, r_match r = Some m /\ version d = version m).
  { intros d. rewrite Hcm. unfold ChartManager.column_color. simpl.
    destruct (r_match r) as [m|]; simpl.
    - destruct (String.eqb_spec (version d) (version m)) as [He|He].
      + split; [|done]. intros _. by exists m.
      + split; [done|]. intros (m' & [= <-] & ?). done.
    - split; [done|]. by intros (m' & [=] & _). }
  split; [by rewrite Hcm|]. split; [exact Hcol|].
  clear Hcm. unfold r, ChartManager.resolve in *. split.
  - intros (d & _ & Hd). apply Hcol in Hd as (m & Hm & _).
    apply match_Some_iff_OK. by exists m.
  - intros HOK. apply match_Some_iff_OK in HOK as [m Hm].
    assert (Hin : In m (fields <$> ChartManager.chartData cm)).
    { pose proof Hm as Hm'. rewrite match_candidates in Hm'. rename Hm' into Hm2.
      apply fold_pick_newer_In in Hm2 as [Hin _].
      by apply candidates_In in Hin as [Hin _]. }
    apply List.in_map_iff in Hin as (d & Hd & Hin).
    exists d. split; [done|]. apply Hcol. exists m. by rewrite Hd.
Qed.

Lemma resolve_updateVersionHighlight (name : option string)
    (cm : ChartManager.t) :
  ChartManager.resolve (ChartManager.updateVersionHighlight name cm)
  = ChartManager.resolve cm.
Proof.
  unfold ChartManager.updateVersionHighlight. by destruct (ChartManager.series cm).
Qed.

Lemma updateVersionHighlight_twice (name : option string)
    (cm : ChartManager.t) :
  ChartManager.updateVersionHighlight name
    (ChartManager.updateVersionHighlight name cm)
  = ChartManager.updateVersionHighlight name cm.
Proof.
  unfold ChartManager.updateVersionHighlight.
  destruct (ChartManager.series cm) eqn:Hs; simpl; by rewrite ?Hs.
Qed.

(** X19: the display depends on [chartData] and the two dates only, which
    it leaves alone: a second [updateResolvedVersionUI] changes neither the
    manager nor the page. *)
Theorem updateResolvedVersionUI_idempotent
    (cm : ChartManager.t) (doc : document) :
  let once := ChartManager.updateResolvedVersionUI cm doc in
  ChartManager.purchaseDate once.1 = ChartManager.purchaseDate cm /\
  ChartManager.travelDate once.1 = ChartManager.travelDate cm /\
  ChartManager.chartData once.1 = ChartManager.chartData cm /\
  ChartManager.updateResolvedVersionUI once.1 once.2 = once.
Proof.
  unfold ChartManager.updateResolvedVersionUI.
  destruct (doc !! "resolved-version") as [old|] eqn:Hel; simpl.
  - rewrite lookup_insert_eq. simpl.
    rewrite resolve_updateVersionHighlight, updateVersionHighlight_twice,
      insert_insert_eq.
    unfold ChartManager.updateVersionHighlight.
    by destruct (ChartManager.series cm).
  - by rewrite Hel.
Qed.

End DisplayFacts.

(** ** The date forms *)

Section FormFacts.
Context `{fmt : Locale} `{input : DateInput}.

(** X10: [updateVersionData] keeps the length of [chartData] and every
    record but the one at the index; that record keeps its version and its
    category and takes the three dates and their formatted texts; an index
    past the end changes nothing. *)
Theorem updateVersionData_changes_one_record
    (versionIndex : nat) (publishDate' startDate endDate : Z)
    (chartData : list ChartRecord) :
  let updated :=
    Scripts.updateVersionData versionIndex publishDate' startDate endDate
      chartData in
  length updated = length chartData /\
  (forall j, j <> versionIndex -> updated !! j = chartData !! j) /\
  (forall d : ChartRecord, chartData !! versionIndex = Some d ->
     exists d' : ChartRecord,
       updated !! versionIndex = Some d' /\
       version d' = version d /\ category d' = category d /\
       publishDate d' = publishDate' /\ open d' = startDate /\
       close d' = endDate /\
       publishDateFormatted d' = fmt publishDate' /\
       validityStartFormatted d' = fmt startDate /\
       validityEndFormatted d' = fmt endDate) /\
  ((length chartData <= versionIndex)%nat -> updated = chartData).
Proof.
  intros updated. unfold updated, Scripts.updateVersionData.
  destruct (Nat.ltb_spec versionIndex (length chartData)) as [Hlt|Hge].
  - split; [apply length_alter|].
    split; [intros j Hj; by apply list_lookup_alter_ne|].
    split; [|lia].
    intros d Hd. rewrite list_lookup_alter_eq, Hd. simpl.
    eexists. split; [reflexivity|]. by repeat split.
  - split; [done|]. split; [done|]. split; [|done].
    intros d Hd. apply lookup_lt_Some in Hd. lia.
Qed.

Lemma updateVersionData_lookup versionIndex p s e (l : list ChartRecord)
    (d' : ChartRecord) :
  Scripts.updateVersionData versionIndex p s e l !! versionIndex = Some d' ->
  publishDate d' = p /\ open d' = s /\ close d' = e.
Proof.
  unfold Scripts.updateVersionData.
  destruct (Nat.ltb_spec versionIndex (length l)) as [Hlt|Hge].
  - rewrite list_lookup_alter_eq.
    destruct (l !! versionIndex) as [d|]; [|done]. by intros [= <-].
  - intros Hd. apply lookup_lt_Some in Hd. lia.
Qed.

Lemma updateVersionData_frame versionIndex p s e (l : list ChartRecord) :
  length (Scripts.updateVersionData versionIndex p s e l) = length l /\
  forall j, j <> versionIndex ->
            Scripts.updateVersionData versionIndex p s e l !! j = l !! j.
Proof.
  unfold Scripts.updateVersionData.
  destruct (versionIndex <? length l)%nat; [|done].
  split; [apply length_alter|]. intros j Hj. by apply list_lookup_alter_ne.
Qed.

(** The handler, once the three inputs are found. *)
Lemma handleDateChange_inputs (i : nat) (st : Scripts.page) (pv sv ev : string) :
  Scripts.form_inputs i st pv sv ev ->
  Scripts.handleDateChange i st =
    if nonempty pv && nonempty sv && nonempty ev
    then
      let p := parseDate pv in
      let s := parseDate sv in
      let e := parseDate ev in
      let start_id := Scripts.input_id "startDate" (i + 1) in
      let end_id := Scripts.input_id "endDate" (i + 1) in
      let late name := "Start date cannot be before published date for " +:+ name in
      let short name := "End date must be after start date for " +:+ name in
      if s <? p
      then
        name ← Scripts.version_at i (Scripts.chartData st);
        if e <=? p
        then
          Some {| Scripts.chartData :=
                    Scripts.updateVersionData i p p (p + Scripts.day)
                      (Scripts.chartData st);
                  Scripts.doc :=
                    <[end_id := dateToInputFormat (p + Scripts.day)]>
                      (<[start_id := dateToInputFormat p]> (Scripts.doc st));
                  Scripts.alerts :=
                    (Scripts.alerts st ++ [late name]) ++ [short name] |}
        else
          Some {| Scripts.chartData :=
                    Scripts.updateVersionData i p p e (Scripts.chartData st);
                  Scripts.doc :=
                    <[start_id := dateToInputFormat p]> (Scripts.doc st);
                  Scripts.alerts := Scripts.alerts st ++ [late name] |}
      else if e <=? s
      then
        name ← Scripts.version_at i (Scripts.chartData st);
        Some {| Scripts.chartData :=
                  Scripts.updateVersionData i p s (s + Scripts.day)
                    (Scripts.chartData st);
                Scripts.doc :=
                  <[end_id := dateToInputFormat (s + Scripts.day)]>
                    (Scripts.doc st);
                Scripts.alerts := Scripts.alerts st ++ [short name] |}
      else
        Some {| Scripts.chartData :=
                  Scripts.updateVersionData i p s e (Scripts.chartData st);
                Scripts.doc := Scripts.doc st;
                Scripts.alerts := Scripts.alerts st |}
    else Some st.
Proof.
  intros (Hp & Hs & He). unfold Scripts.handleDateChange.
  rewrite Hp, Hs, He. simpl.
  destruct (nonempty pv && nonempty sv && nonempty ev); [|done].
  destruct (parseDate sv <? parseDate pv).
  - simpl. destruct (Scripts.version_at i (Scripts.chartData st)) eqn:Hv;
      [|done].
    simpl. destruct (parseDate ev <=? parseDate pv); simpl; by rewrite ?Hv.
  - simpl. destruct (parseDate ev <=? parseDate sv); [|done].
    simpl. by destruct (Scripts.version_at i (Scripts.chartData st)).
Qed.

Lemma version_at_None (i : nat) (l : list ChartRecord) :
  Scripts.version_at i l = None <-> (length l <= i)%nat.
Proof.
  unfold Scripts.version_at. rewrite <- lookup_ge_None.
  by destruct (l !! i).
Qed.

(** X11: when [handleDateChange] finds the three inputs filled in and
    returns, the record at the index has the publish date of the form, a
    start that is not before it and an end after the start; the other
    records and the length of [chartData] are as before. *)
Theorem handleDateChange_orders_dates
    (versionIndex : nat) (st st' : Scripts.page) (pv sv ev : string) :
  Scripts.form_inputs versionIndex st pv sv ev ->
  nonempty pv && nonempty sv && nonempty ev = true ->
  Scripts.handleDateChange versionIndex st = Some st' ->
  length (Scripts.chartData st') = length (Scripts.chartData st) /\
  (forall j, j <> versionIndex ->
     Scripts.chartData st' !! j = Scripts.chartData st !! j) /\
  (forall d' : ChartRecord,
     Scripts.chartData st' !! versionIndex = Some d' ->
     publishDate d' = parseDate pv /\
     publishDate d' <= open d' /\ open d' < close d').
Proof.
  intros Hin Hne. rewrite (handleDateChange_inputs _ _ _ _ _ Hin), Hne.
  cbv zeta. unfold Scripts.day.
  destruct (Z.ltb_spec (parseDate sv) (parseDate pv)).
  - destruct (Scripts.version_at _ _); [|done]. simpl.
    destruct (Z.leb_spec (parseDate ev) (parseDate pv));
      intros [= <-]; simpl;
      (split; [apply updateVersionData_frame|];
       split; [apply updateVersionData_frame|];
       intros d' Hd; apply updateVersionData_lookup in Hd as (-> & -> & ->);
       lia).
  - destruct (Z.leb_spec (parseDate ev) (parseDate sv)).
    + destruct (Scripts.version_at _ _); [|done]. simpl.
      intros [= <-]; simpl.
      split; [apply updateVersionData_frame|].
      split; [apply updateVersionData_frame|].
      intros d' Hd; apply updateVersionData_lookup in Hd as (-> & -> & ->).
      lia.
    + intros [= <-]; simpl.
      split; [apply updateVersionData_frame|].
      split; [apply updateVersionData_frame|].
      intros d' Hd; apply updateVersionData_lookup in Hd as (-> & -> & ->).
      lia.
Qed.

(** X12: [handleDateChange] ends in a TypeError exactly when one of the
    three inputs is missing from the page, or when they are all filled in,
    the dates are out of order and [chartData] has no record at the index. *)
Theorem handleDateChange_TypeError
    (versionIndex : nat) (st : Scripts.page) :
  Scripts.handleDateChange versionIndex st = None <->
  (Scripts.doc st !! Scripts.input_id "publishDate" (versionIndex + 1) = None \/
   Scripts.doc st !! Scripts.input_id "startDate" (versionIndex + 1) = None \/
   Scripts.doc st !! Scripts.input_id "endDate" (versionIndex + 1) = None) \/
  (exists pv sv ev,
     Scripts.form_inputs versionIndex st pv sv ev /\
     nonempty pv && nonempty sv && nonempty ev = true /\
     (length (Scripts.chartData st) <= versionIndex)%nat /\
     (parseDate sv < parseDate pv \/ parseDate ev <= parseDate sv)).
Proof.
  destruct (Scripts.doc st !! Scripts.input_id "publishDate" (versionIndex + 1))
    as [pv|] eqn:Hp;
    [|split; [by left; left|]; intros _;
      unfold Scripts.handleDateChange; by rewrite Hp].
  destruct (Scripts.doc st !! Scripts.input_id "startDate" (versionIndex + 1))
    as [sv|] eqn:Hs;
    [|split; [by left; right; left|]; intros _;
      unfold Scripts.handleDateChange; by rewrite Hp, Hs].
  destruct (Scripts.doc st !! Scripts.input_id "endDate" (versionIndex + 1))
    as [ev|] eqn:He;
    [|split; [by left; right; right|]; intros _;
      unfold Scripts.handleDateChange; by rewrite Hp, Hs, He].
  rewrite (handleDateChange_inputs versionIndex st pv sv ev) by done.
  cbv zeta. split.
  - intros Hnone. right. exists pv, sv, ev. split; [done|].
    destruct (nonempty pv && nonempty sv && nonempty ev); [|done].
    split; [done|].
    destruct (Z.ltb_spec (parseDate sv) (parseDate pv)).
    + destruct (Scripts.version_at _ _) eqn:Hv.
      * simpl in Hnone. by destruct (_ <=? _).
      * apply version_at_None in Hv. split; [done|by left].
    + destruct (Z.leb_spec (parseDate ev) (parseDate sv)); [|done].
      destruct (Scripts.version_at _ _) eqn:Hv; [done|].
      apply version_at_None in Hv. split; [done|by right].
  - intros [[[=]|[[=]|[=]]]|(pv' & sv' & ev' & (Hp' & Hs' & He') & Hne & Hlen & Hbad)].
    rewrite Hp in Hp'. rewrite Hs in Hs'. rewrite He in He'.
    injection Hp' as <-. injection Hs' as <-. injection He' as <-.
    rewrite Hne. apply version_at_None in Hlen. rewrite Hlen.
    destruct (Z.ltb_spec (parseDate sv) (parseDate pv)); [done|].
    destruct (Z.leb_spec (parseDate ev) (parseDate sv)); [done|lia].
Qed.

(** X13: when [handleDateChange] finds the three inputs and returns: with
    an input left empty nothing changes; with all filled in, no alert is
    added exactly when the publish date is not after the start and the start
    is before the end, and then the page is left as it is and the record
    takes the dates of the form unchanged. *)
Theorem handleDateChange_alerts
    (versionIndex : nat) (st st' : Scripts.page) (pv sv ev : string) :
  Scripts.form_inputs versionIndex st pv sv ev ->
  Scripts.handleDateChange versionIndex st = Some st' ->
  (nonempty pv && nonempty sv && nonempty ev = false -> st' = st) /\
  (nonempty pv && nonempty sv && nonempty ev = true ->
   (Scripts.alerts st' = Scripts.alerts st <->
    parseDate pv <= parseDate sv /\ parseDate sv < parseDate ev) /\
   (parseDate pv <= parseDate sv -> parseDate sv < parseDate ev ->
    Scripts.doc st' = Scripts.doc st /\
    Scripts.chartData st' =
      Scripts.updateVersionData versionIndex (parseDate pv) (parseDate sv)
        (parseDate ev) (Scripts.chartData st))).
Proof.
  intros Hin. rewrite (handleDateChange_inputs _ _ _ _ _ Hin). cbv zeta.
  assert (Happ : forall (l k : list string), k <> [] -> l ++ k <> l).
  { intros l k Hk Heq. apply Hk.
    apply (app_inv_head l). by rewrite app_nil_r. }
  destruct (nonempty pv && nonempty sv && nonempty ev).
  2:{ intros [= <-]. by split. }
  intros Hrun. split; [done|]. intros _.
  destruct (Z.ltb_spec (parseDate sv) (parseDate pv)).
  - destruct (Scripts.version_at _ _); [|done]. simpl in Hrun.
    destruct (Z.leb_spec (parseDate ev) (parseDate pv));
      injection Hrun as <-; simpl; (split; [|lia]); split; try lia.
    + rewrite <- app_assoc. intros Heq. by apply Happ in Heq.
    + intros Heq. by apply Happ in Heq.
  - destruct (Z.leb_spec (parseDate ev) (parseDate sv)).
    + destruct (Scripts.version_at _ _); [|done]. simpl in Hrun.
      injection Hrun as <-; simpl. split; [|lia]. split; [|lia].
      intros Heq. by apply Happ in Heq.
    + injection Hrun as <-; simpl. split; [split; [lia|done]|done].
Qed.

End FormFacts.

(** ** The date calculator *)

Section CalculatorFacts.
Context `{axis : Axis}.

Lemma applyShiftAndValidate_Some (sd : DateCalculator.ShiftData) (p : Z) :
  DateCalculator.shift_in_range sd p = true ->
  let start :=
    DateCalculator.time_of_halves
      (2 * DateCalculator.originalStart sd + DateCalculator.shift2 sd) in
  let stop :=
    DateCalculator.time_of_halves
      (2 * DateCalculator.originalEnd sd + DateCalculator.shift2 sd) in
  DateCalculator.applyShiftAndValidate sd p
  = Some {| DateCalculator.startDate := Z.max start p;
            DateCalculator.endDate := stop + (Z.max start p - start);
            DateCalculator.startTimestamp := Z.max start p;
            DateCalculator.endTimestamp := stop + (Z.max start p - start);
            DateCalculator.f_publishDate := p;
            DateCalculator.wasAdjusted := Z.max start p =? p |}.
Proof.
  intros Hin. unfold DateCalculator.applyShiftAndValidate.
  rewrite Hin. cbv zeta.
  destruct (Z.ltb_spec
              (DateCalculator.time_of_halves
                 (2 * DateCalculator.originalStart sd + DateCalculator.shift2 sd))
              p) as [Hlt|Hge].
  - rewrite Z.max_r by lia. do 2 f_equal; lia.
  - rewrite Z.max_l by lia. do 2 f_equal; lia.
Qed.

Lemma applyShiftAndValidate_None (sd : DateCalculator.ShiftData) (p : Z) :
  DateCalculator.shift_in_range sd p = false ->
  DateCalculator.applyShiftAndValidate sd p = None.
Proof.
  intros Hout. unfold DateCalculator.applyShiftAndValidate. by rewrite Hout.
Qed.

(** X14: within the range where its arithmetic is exact,
    [applyShiftAndValidate] returns dates that do not start before the
    publish date, and [wasAdjusted] tells that they start on it: it is true
    after an adjustment, and also when the shifted start falls on the
    publish date by itself. *)
Theorem shifted_start_not_before_publish
    (shiftData : DateCalculator.ShiftData) (publishDateTimestamp : Z) :
  DateCalculator.shift_in_range shiftData publishDateTimestamp = true ->
  exists r,
    DateCalculator.applyShiftAndValidate shiftData publishDateTimestamp
      = Some r /\
    DateCalculator.f_publishDate r = publishDateTimestamp /\
    publishDateTimestamp <= DateCalculator.startTimestamp r /\
    (DateCalculator.wasAdjusted r = true <->
     DateCalculator.startTimestamp r = publishDateTimestamp) /\
    (DateCalculator.wasAdjusted r = true <->
     DateCalculator.time_of_halves
       (2 * DateCalculator.originalStart shiftData
        + DateCalculator.shift2 shiftData)
     <= publishDateTimestamp).
Proof.
  intros Hin. eexists. split; [by apply applyShiftAndValidate_Some|].
  simpl. rewrite Z.eqb_eq. lia.
Qed.

(** X15: within that range, [applyShiftAndValidate] keeps the length of
    the period when the shift is a whole number of milliseconds, or when
    both shifted ends are not before the epoch; an adjustment moves both
    ends alike. *)
Theorem shift_keeps_duration
    (shiftData : DateCalculator.ShiftData) (publishDateTimestamp : Z) :
  DateCalculator.shift_in_range shiftData publishDateTimestamp = true ->
  Z.even (DateCalculator.shift2 shiftData) = true \/
  (0 <= 2 * DateCalculator.originalStart shiftData
        + DateCalculator.shift2 shiftData /\
   0 <= 2 * DateCalculator.originalEnd shiftData
        + DateCalculator.shift2 shiftData) ->
  exists r,
    DateCalculator.applyShiftAndValidate shiftData publishDateTimestamp
      = Some r /\
    DateCalculator.endTimestamp r - DateCalculator.startTimestamp r
    = DateCalculator.originalEnd shiftData
      - DateCalculator.originalStart shiftData.
Proof.
  intros Hin Hcase. eexists. split; [by apply applyShiftAndValidate_Some|].
  simpl. unfold DateCalculator.time_of_halves.
  destruct Hcase as [Heven|[H1 H2]].
  - apply Z.even_spec in Heven as [k Hk]. rewrite Hk.
    replace (2 * DateCalculator.originalStart shiftData + 2 * k)
      with ((DateCalculator.originalStart shiftData + k) * 2) by lia.
    replace (2 * DateCalculator.originalEnd shiftData + 2 * k)
      with ((DateCalculator.originalEnd shiftData + k) * 2) by lia.
    rewrite !Z.quot_mul by lia. lia.
  - rewrite !Z.quot_div_nonneg by lia.
    Z.to_euclidean_division_equations. lia.
Qed.

(** The shift of a period in range is in the range of
    [applyShiftAndValidate]: the second step of a drop never leaves it. *)
Lemma shift_of_period_in_range (od : DateCalculator.OriginalData) (m : Z) :
  DateCalculator.period_in_range od m = true ->
  DateCalculator.within (DateCalculator.publishDate od) = true ->
  let d := DateCalculator.close od - DateCalculator.open od in
  DateCalculator.shift_in_range
    {| DateCalculator.shift2 := 2 * m - (2 * DateCalculator.open od + d);
       DateCalculator.originalStart := DateCalculator.open od;
       DateCalculator.originalEnd := DateCalculator.close od;
       DateCalculator.originalDuration := d;
       DateCalculator.originalMidpoint2 := 2 * DateCalculator.open od + d;
       DateCalculator.newMidpoint := m |}
    (DateCalculator.publishDate od) = true.
Proof.
  unfold DateCalculator.period_in_range, DateCalculator.shift_in_range,
    DateCalculator.within, DateCalculator.limit.
  simpl. rewrite !andb_true_iff, !Z.ltb_lt. lia.
Qed.

Lemma calculateDropDates_Some (x : position) (od : DateCalculator.OriginalData)
    (m : Z) :
  positionToDate x = Some m ->
  DateCalculator.period_in_range od m = true ->
  DateCalculator.within (DateCalculator.publishDate od) = true ->
  let d := DateCalculator.close od - DateCalculator.open od in
  let sd :=
    {| DateCalculator.shift2 := 2 * m - (2 * DateCalculator.open od + d);
       DateCalculator.originalStart := DateCalculator.open od;
       DateCalculator.originalEnd := DateCalculator.close od;
       DateCalculator.originalDuration := d;
       DateCalculator.originalMidpoint2 := 2 * DateCalculator.open od + d;
       DateCalculator.newMidpoint := m |} in
  exists f,
    DateCalculator.applyShiftAndValidate sd (DateCalculator.publishDate od)
      = Some f /\
    DateCalculator.calculateDropDates x od
      = Some {| DateCalculator.finalDates := f;
                DateCalculator.d_originalData := od;
                DateCalculator.d_shiftData := sd |}.
Proof.
  intros Hm Hin Hp d sd.
  pose proof (shift_of_period_in_range od m Hin Hp) as Hs. cbv zeta in Hs.
  fold d in Hs. fold sd in Hs.
  pose proof (applyShiftAndValidate_Some sd _ Hs) as Hf. cbv zeta in Hf.
  eexists. split; [exact Hf|].
  unfold DateCalculator.calculateDropDates. rewrite Hm. simpl.
  unfold DateCalculator.calculateDateShift. rewrite Hin. simpl.
  fold d. fold sd. rewrite Hf. reflexivity.
Qed.

(** X16: [calculateDropDates] within the range where its arithmetic is
    exact, for a drop that leaves both ends of the period at or after the
    epoch: it returns, with the shift of [calculateDateShift]; the period
    keeps its length; when its new start is not before the publish date it
    is centred on the dropped instant, up to the half millisecond a [Date]
    drops; otherwise it starts on the publish date. *)
Theorem drop_centres_period
    (finalXPosition : position) (originalData : DateCalculator.OriginalData)
    (m : Z) :
  positionToDate finalXPosition = Some m ->
  DateCalculator.period_in_range originalData m = true ->
  DateCalculator.within (DateCalculator.publishDate originalData) = true ->
  let d := DateCalculator.close originalData
           - DateCalculator.open originalData in
  Z.abs d <= 2 * m ->
  exists r,
    DateCalculator.calculateDropDates finalXPosition originalData = Some r /\
    let f := DateCalculator.finalDates r in
    DateCalculator.calculateDateShift originalData m
      = Some (DateCalculator.d_shiftData r) /\
    DateCalculator.d_originalData r = originalData /\
    DateCalculator.endTimestamp f - DateCalculator.startTimestamp f = d /\
    (DateCalculator.publishDate originalData <= Z.quot (2 * m - d) 2 ->
     2 * m - 1
       <= DateCalculator.startTimestamp f + DateCalculator.endTimestamp f
     /\ DateCalculator.startTimestamp f + DateCalculator.endTimestamp f
        <= 2 * m) /\
    (Z.quot (2 * m - d) 2 < DateCalculator.publishDate originalData ->
     DateCalculator.startTimestamp f = DateCalculator.publishDate originalData
     /\ DateCalculator.endTimestamp f
        = DateCalculator.publishDate originalData + d).
Proof.
  intros Hm Hin Hp d Hd.
  destruct (calculateDropDates_Some finalXPosition originalData m Hm Hin Hp)
    as (f & Hf & Hr).
  pose proof (shift_of_period_in_range originalData m Hin Hp) as Hs.
  cbv zeta in Hs.
  rewrite (applyShiftAndValidate_Some _ _ Hs) in Hf. cbv zeta in Hf.
  injection Hf as <-.
  eexists. split; [exact Hr|]. cbv zeta. simpl.
  split.
  { unfold DateCalculator.calculateDateShift. by rewrite Hin. }
  split; [done|].
  fold d. unfold DateCalculator.time_of_halves.
  replace (2 * DateCalculator.open originalData
           + (2 * m - (2 * DateCalculator.open originalData + d)))
    with (2 * m - d) by lia.
  replace (2 * DateCalculator.close originalData
           + (2 * m - (2 * DateCalculator.open originalData + d)))
    with (2 * m + d) by (unfold d; lia).
  rewrite (Z.quot_div_nonneg (2 * m - d)) by lia.
  rewrite (Z.quot_div_nonneg (2 * m + d)) by lia.
  Z.to_euclidean_division_equations. lia.
Qed.

Lemma new_Date_Some (n z : Z) : new_Date n = Some z -> z = n.
Proof. unfold new_Date. destruct (_ <=? _); [|done]. by intros [= <-]. Qed.

Lemma new_Date_of_valid (z : Z) : Z.abs z <= max_time -> new_Date z = Some z.
Proof.
  intros Hz. unfold new_Date.
  by destruct (Z.leb_spec (Z.abs z) max_time); [|lia].
Qed.

Lemma date_lt_true (a b : option Z) :
  date_lt a b = true <-> exists x y, a = Some x /\ b = Some y /\ x < y.
Proof.
  destruct a as [x|], b as [y|]; simpl.
  - rewrite Z.ltb_lt. split.
    + intros Hlt. by exists x, y.
    + by intros (? & ? & [= <-] & [= <-] & Hlt).
  - split; [done|]. by intros (? & ? & _ & ? & _).
  - split; [done|]. by intros (? & ? & ? & _).
  - split; [done|]. by intros (? & ? & ? & _).
Qed.

(** X17: [calculatePreciseDropDates] never moves the start: it returns
    the dates of the two ends of the column as they are.  The publish date
    is moved exactly when the start and the original publish date are valid
    dates and the start is the earlier; it is then the start.  So whenever
    the start and the returned publish date are valid, the publish date is
    the earlier of the original one and the start, and the period does not
    start before it.  The two flags are equal. *)
Theorem precise_drop_pulls_publish_date
    (column : target) (originalData : DateCalculator.OriginalData) :
  let r := DateCalculator.calculatePreciseDropDates column originalData in
  let original := new_Date (DateCalculator.publishDate originalData) in
  DateCalculator.p_startTimestamp r
    = positionToDate (getActualColumnPositions column).1 /\
  DateCalculator.p_endTimestamp r
    = positionToDate (getActualColumnPositions column).2 /\
  DateCalculator.p_wasAdjusted r = DateCalculator.publishDateWasUpdated r /\
  (DateCalculator.publishDateWasUpdated r = true <->
   exists s p, DateCalculator.p_startTimestamp r = Some s /\
               original = Some p /\ s < p) /\
  DateCalculator.publishTimestamp r
    = (if DateCalculator.publishDateWasUpdated r
       then DateCalculator.p_startTimestamp r else original) /\
  (forall s q, DateCalculator.p_startTimestamp r = Some s ->
               DateCalculator.publishTimestamp r = Some q ->
               q = Z.min (DateCalculator.publishDate originalData) s).
Proof.
  unfold DateCalculator.calculatePreciseDropDates.
  destruct (getActualColumnPositions column) as [startX endX]. simpl.
  destruct (date_lt (positionToDate startX)
              (new_Date (DateCalculator.publishDate originalData))) eqn:Hlt;
    simpl.
  - pose proof Hlt as Hlt'.
    apply date_lt_true in Hlt' as (s & p & Hs & Hp & Hsp).
    rewrite Hs. simpl.
    rewrite (new_Date_of_valid s) by (by eapply positionToDate_valid).
    split; [done|]. split; [done|]. split; [done|].
    split; [split; [intros _; by exists s, p | done]|].
    split; [done|].
    intros s' q [= <-] [= <-]. apply new_Date_Some in Hp. lia.
  - split; [done|]. split; [done|]. split; [done|].
    split.
    { split; [done|]. intros (s & p & Hs & Hp & Hsp).
      rewrite Hs, Hp in Hlt. simpl in Hlt. apply Z.ltb_ge in Hlt. lia. }
    split; [done|].
    intros s q Hs Hq. rewrite Hs, Hq in Hlt. simpl in Hlt.
    apply Z.ltb_ge in Hlt. apply new_Date_Some in Hq. lia.
Qed.

End CalculatorFacts.

(** ** Two calls on the object store *)

Section StoreTwice.
Context `{fmt : Locale}.

Lemma mapM_deref_kept (h k : Store.store) (elems : list Store.loc)
    (recs : list VersionRecord) :
  mapM (Store.deref h) elems = Some recs ->
  mapM (Store.deref (h ++ k)) elems = Some recs.
Proof.
  intros Hm.
  destruct (objects_reads h elems recs Hm) as (objs & _ & <- & <- & Hr).
  by apply reads_mapM.
Qed.

Lemma read_array_kept (h k : Store.store) (l : Store.loc)
    (recs : list VersionRecord) :
  Store.read_array h l = Some recs -> Store.read_array (h ++ k) l = Some recs.
Proof.
  unfold Store.read_array. destruct (h !! l) as [c|] eqn:Hl; [|done].
  rewrite (lookup_kept h k l c Hl). destruct c; try done.
  apply mapM_deref_kept.
Qed.

Lemma read_result_kept (h k : Store.store) (l : Store.loc)
    (r : ResolutionResult) :
  Store.read_result h l = Some r -> Store.read_result (h ++ k) l = Some r.
Proof.
  unfold Store.read_result. destruct (h !! l) as [c|] eqn:Hl; [|done].
  rewrite (lookup_kept h k l c Hl). destruct c as [| | |o]; try done.
  destruct (Store.read_array h (Store.o_candidates o)) as [cs|] eqn:Hc; [|done].
  destruct (Store.read_array h (Store.o_available o)) as [av|] eqn:Ha; [|done].
  destruct (Store.read_array h (Store.o_futureCovering o)) as [fu|] eqn:Hf;
    [|done].
  destruct (h !! Store.o_options o) as [c|] eqn:Ho; [|done].
  rewrite (read_array_kept h k _ _ Hc), (read_array_kept h k _ _ Ha),
    (read_array_kept h k _ _ Hf), (lookup_kept h k _ c Ho).
  destruct c as [| |b|]; try done.
  destruct (Store.o_match o) as [lm|]; [|done].
  destruct (Store.deref h lm) as [m|] eqn:Hm; [|done].
  by rewrite (deref_kept h k lm m Hm).
Qed.

(** X18: two calls with the same arguments, the second on the store the
    first one left: both return; the two result objects, their arrays and
    their options objects are pairwise different objects; and on the final
    store both results still read back as the pure resolver's result. *)
Theorem second_call_builds_another_result
    (h : Store.store) (versions : Store.value) (va : versions_arg)
    (purchaseDate travelDate : instant_arg) (options : option ResolveOptions) :
  Store.read_versions h versions = Some va ->
  exists r1 new1 res1 r2 new2 res2,
    Store.resolveVersion versions purchaseDate travelDate options h
      = Some (r1, h ++ new1) /\
    Store.resolveVersion versions purchaseDate travelDate options (h ++ new1)
      = Some (r2, (h ++ new1) ++ new2) /\
    ((h ++ new1) ++ new2) !! r1 = Some (Store.CResult res1) /\
    ((h ++ new1) ++ new2) !! r2 = Some (Store.CResult res2) /\
    (forall l, In l (r1 :: Store.result_arrays res1) ->
               ~ In l (r2 :: Store.result_arrays res2)) /\
    Store.read_result ((h ++ new1) ++ new2) r1
      = Some (resolveVersion va purchaseDate travelDate options) /\
    Store.read_result ((h ++ new1) ++ new2) r2
      = Some (resolveVersion va purchaseDate travelDate options).
Proof.
  intros Hv.
  destruct (resolveVersion_run h versions va purchaseDate travelDate options Hv)
    as (r1 & new1 & res1 & Hrun1 & Hr1 & _ & _ & Hread1).
  pose proof (read_versions_kept h new1 versions va Hv) as Hv'.
  destruct (resolveVersion_run (h ++ new1) versions va purchaseDate travelDate
              options Hv')
    as (r2 & new2 & res2 & Hrun2 & Hr2 & Hfresh2 & _ & Hread2).
  exists r1, new1, res1, r2, new2, res2.
  split; [done|]. split; [done|].
  split; [by apply lookup_kept|]. split; [done|].
  split; [|split; [by apply read_result_kept|done]].
  assert (Hold : forall l, In l (r1 :: Store.result_arrays res1) ->
                           (l < length (h ++ new1))%nat).
  { intros l Hl. unfold Store.read_result in Hread1. rewrite Hr1 in Hread1.
    unfold Store.read_array in Hread1.
    destruct Hl as [<-|Hl]; [by eapply lookup_lt_Some|].
    simpl in Hl.
    destruct ((h ++ new1) !! Store.o_candidates res1) eqn:E1; [|done].
    destruct ((h ++ new1) !! Store.o_available res1) eqn:E2;
      [|by destruct c; try destruct (mapM _ _)].
    destruct ((h ++ new1) !! Store.o_futureCovering res1) eqn:E3;
      [|by destruct c; try destruct (mapM _ _);
           destruct c0; try destruct (mapM _ _)].
    destruct ((h ++ new1) !! Store.o_options res1) eqn:E4;
      [|by destruct c; try destruct (mapM _ _);
           destruct c0; try destruct (mapM _ _);
           destruct c1; try destruct (mapM _ _)].
    destruct Hl as [<-|[<-|[<-|[<-|[]]]]]; by eapply lookup_lt_Some. }
  intros l Hl1 Hl2. apply Hold in Hl1.
  rewrite List.Forall_forall in Hfresh2. apply Hfresh2 in Hl2. lia.
Qed.

End StoreTwice.

(** ** The further statements at sample inputs *)

Example form_with_start_before_publication :
  @Scripts.handleDateChange decimal_locale decimal_input 0
    {| Scripts.chartData := [chart_v1];
       Scripts.doc :=
         {[ "publishDate1" := "100"; "startDate1" := "50";
            "endDate1" := "60" ]};
       Scripts.alerts := [] |}
  = Some
      {| Scripts.chartData :=
           [{| fields := {| version := "v1"; publishDate := 100;
                            open := 100; close := 100 + Scripts.day |};
               category := "Version 1";
               publishDateFormatted := "100";
               validityStartFormatted := "100";
               validityEndFormatted := "86400100" |}];
         Scripts.doc :=
           {[ "publishDate1" := "100"; "startDate1" := "100";
              "endDate1" := "86400100" ]};
         Scripts.alerts :=
           ["Start date cannot be before published date for v1";
            "End date must be after start date for v1"] |}.
Proof. vm_compute. reflexivity. Qed.

Lemma resolveVersionName_names_newest_sample :
  @resolveVersionName decimal_locale (VArray [v1; v2]) (Millis 160)
    (Millis 150) None = Some "v2" /\
  exists m,
    version m = "v2" /\
    In m [v1; v2] /\
    publishDate m <= 160 /\
    covers (inclusiveEnd_applied None) 150 m /\
    forall c, In c [v1; v2] -> publishDate c <= 160 ->
              covers (inclusiveEnd_applied None) 150 c -> not_newer c m.
Proof.
  split; [reflexivity|].
  apply (@resolveVersionName_names_newest decimal_locale (VArray [v1; v2])
           (Millis 160) (Millis 150) None "v2").
  reflexivity.
Defined.

Lemma later_purchase_moves_future_to_candidates_sample :
  let r1 := @resolveVersion decimal_locale (VArray [v1; v2]) (Millis 120)
              (Millis 150) None in
  let r2 := @resolveVersion decimal_locale (VArray [v1; v2]) (Millis 160)
              (Millis 150) None in
  normalize (Millis 120) <= normalize (Millis 160) /\
  (forall v, In v (r_candidates r1) -> In v (r_candidates r2)) /\
  (forall v, In v (r_futureCovering r2) -> In v (r_futureCovering r1)) /\
  (forall v, In v (r_futureCovering r1) ->
             In v (r_futureCovering r2) \/ In v (r_candidates r2)).
Proof.
  split; [simpl; lia|].
  apply (@later_purchase_moves_future_to_candidates decimal_locale
           (VArray [v1; v2]) (Millis 150) None (Millis 120) (Millis 160)).
  simpl. lia.
Defined.

Lemma later_purchase_never_older_sample :
  r_match (@resolveVersion decimal_locale (VArray [v1; v2]) (Millis 120)
             (Millis 150) None) = Some v1 /\
  exists m2,
    r_match (@resolveVersion decimal_locale (VArray [v1; v2]) (Millis 160)
               (Millis 150) None) = Some m2 /\
    not_newer v1 m2.
Proof.
  split; [reflexivity|].
  apply (@later_purchase_never_older decimal_locale (VArray [v1; v2])
           (Millis 150) None (Millis 120) (Millis 160) v1).
  - simpl. lia.
  - reflexivity.
Defined.

Lemma display_is_header_and_explanation_sample :
  let r := @ChartManager.resolve decimal_locale sample_manager in
  sample_document !! "resolved-version" = Some "" /\
  exists header,
    (@ChartManager.updateResolvedVersionUI decimal_locale sample_manager
       sample_document).2
    = <["resolved-version" :=
          header +:+ "<div style=" +:+ dquote
            +:+ "margin-top:4px;font-size:12px;line-height:1.35;color:#555;"
            +:+ dquote +:+ ">" +:+ r_explanation r +:+ "</div>"]>
        sample_document /\
    match r_reason r with
    | OK =>
        exists m, r_match r = Some m /\
          header = "Gyldig versjon: <strong>" +:+ version m
                     +:+ "</strong> (publisert "
                     +:+ decimal_locale (publishDate m) +:+ ")"
    | NO_AVAILABLE_VERSIONS =>
        header = "Gyldig versjon: <strong>Ingen</strong> (ingen versjoner publisert ennå)"
    | NO_VERSION_COVERS_TRAVEL_DATE =>
        header = "Gyldig versjon: <strong>Ingen</strong> (ingen publisert versjon dekker reisedato)"
    end.
Proof.
  split; [reflexivity|].
  apply (@display_is_header_and_explanation decimal_locale sample_manager
           sample_document "").
  reflexivity.
Defined.

Lemma highlight_follows_match_sample :
  let r := @ChartManager.resolve decimal_locale sample_manager in
  let cm' := (@ChartManager.updateResolvedVersionUI decimal_locale
                sample_manager sample_document).1 in
  sample_document !! "resolved-version" = Some "" /\
  ChartManager.chartData cm' = ChartManager.chartData sample_manager /\
  (forall d : ChartRecord,
     ChartManager.column_color cm' (Some (Some d)) = "#181C56" <->
     exists m, r_match r = Some m /\ version d = version m) /\
  ((exists d : ChartRecord,
      In d (ChartManager.chartData sample_manager) /\
      ChartManager.column_color cm' (Some (Some d)) = "#181C56")
   <-> r_reason r = OK).
Proof.
  split; [reflexivity|].
  apply (@highlight_follows_match decimal_locale sample_manager
           sample_document ""); reflexivity.
Defined.

Lemma handleDateChange_orders_dates_sample :
  let st' :=
    {| Scripts.chartData :=
         @Scripts.updateVersionData decimal_locale 0 100 150 200 [chart_v1];
       Scripts.doc := Scripts.doc sample_page;
       Scripts.alerts := [] |} in
  @Scripts.handleDateChange decimal_locale decimal_input 0 sample_page
    = Some st' /\
  length (Scripts.chartData st') = length (Scripts.chartData sample_page) /\
  (forall j, j <> 0%nat ->
     Scripts.chartData st' !! j = Scripts.chartData sample_page !! j) /\
  (forall d' : ChartRecord,
     Scripts.chartData st' !! 0%nat = Some d' ->
     publishDate d' = @parseDate decimal_input "100" /\
     publishDate d' <= open d' /\ open d' < close d').
Proof.
  split; [vm_compute; reflexivity|].
  apply (@handleDateChange_orders_dates decimal_locale decimal_input 0
           sample_page _ "100" "150" "200").
  - repeat split.
  - reflexivity.
  - vm_compute. reflexivity.
Defined.

Lemma handleDateChange_alerts_sample :
  let st' :=
    {| Scripts.chartData :=
         @Scripts.updateVersionData decimal_locale 0 100 150 200 [chart_v1];
       Scripts.doc := Scripts.doc sample_page;
       Scripts.alerts := [] |} in
  Scripts.form_inputs 0 sample_page "100" "150" "200" /\
  (nonempty "100" && nonempty "150" && nonempty "200" = false ->
   st' = sample_page) /\
  (nonempty "100" && nonempty "150" && nonempty "200" = true ->
   (Scripts.alerts st' = Scripts.alerts sample_page <->
    @parseDate decimal_input "100" <= @parseDate decimal_input "150" /\
    @parseDate decimal_input "150" < @parseDate decimal_input "200") /\
   (@parseDate decimal_input "100" <= @parseDate decimal_input "150" ->
    @parseDate decimal_input "150" < @parseDate decimal_input "200" ->
    Scripts.doc st' = Scripts.doc sample_page /\
    Scripts.chartData st' =
      @Scripts.updateVersionData decimal_locale 0
        (@parseDate decimal_input "100") (@parseDate decimal_input "150")
        (@parseDate decimal_input "200") (Scripts.chartData sample_page))).
Proof.
  split; [repeat split|].
  apply (@handleDateChange_alerts decimal_locale decimal_input 0 sample_page
           _ "100" "150" "200").
  - repeat split.
  - vm_compute. reflexivity.
Defined.

Lemma shifted_start_not_before_publish_sample :
  DateCalculator.shift_in_range sample_shift 50 = true /\
  exists r,
    DateCalculator.applyShiftAndValidate sample_shift 50 = Some r /\
    DateCalculator.f_publishDate r = 50 /\
    50 <= DateCalculator.startTimestamp r /\
    (DateCalculator.wasAdjusted r = true <->
     DateCalculator.startTimestamp r = 50) /\
    (DateCalculator.wasAdjusted r = true <->
     DateCalculator.time_of_halves
       (2 * DateCalculator.originalStart sample_shift
        + DateCalculator.shift2 sample_shift) <= 50).
Proof.
  split; [reflexivity|].
  apply (shifted_start_not_before_publish sample_shift 50). reflexivity.
Defined.

Lemma shift_keeps_duration_sample :
  DateCalculator.shift_in_range sample_shift 50 = true /\
  Z.even (DateCalculator.shift2 sample_shift) = true /\
  exists r,
    DateCalculator.applyShiftAndValidate sample_shift 50 = Some r /\
    DateCalculator.endTimestamp r - DateCalculator.startTimestamp r
    = DateCalculator.originalEnd sample_shift
      - DateCalculator.originalStart sample_shift.
Proof.
  split; [reflexivity|]. split; [reflexivity|].
  apply (shift_keeps_duration sample_shift 50); [reflexivity|].
  left. reflexivity.
Defined.

Lemma drop_centres_period_sample :
  @positionToDate plain_axis 300 = Some 300 /\
  DateCalculator.period_in_range sample_period 300 = true /\
  exists r,
    @DateCalculator.calculateDropDates plain_axis 300 sample_period = Some r /\
    let f := DateCalculator.finalDates r in
    DateCalculator.calculateDateShift sample_period 300
      = Some (DateCalculator.d_shiftData r) /\
    DateCalculator.d_originalData r = sample_period /\
    DateCalculator.endTimestamp f - DateCalculator.startTimestamp f = 100 /\
    (50 <= Z.quot (2 * 300 - 100) 2 ->
     2 * 300 - 1
       <= DateCalculator.startTimestamp f + DateCalculator.endTimestamp f
     /\ DateCalculator.startTimestamp f + DateCalculator.endTimestamp f
        <= 2 * 300) /\
    (Z.quot (2 * 300 - 100) 2 < 50 ->
     DateCalculator.startTimestamp f = 50 /\
     DateCalculator.endTimestamp f = 50 + 100).
Proof.
  split; [reflexivity|]. split; [reflexivity|].
  apply (@drop_centres_period plain_axis 300 sample_period 300);
    [reflexivity|reflexivity|reflexivity|].
  simpl. lia.
Defined.

Lemma second_call_builds_another_result_sample :
  Store.read_versions Store.sample_store (Store.Ref 2%nat)
    = Some (VArray [v2; v1]) /\
  exists r1 new1 res1 r2 new2 res2,
    @Store.resolveVersion decimal_locale (Store.Ref 2%nat) (Millis 160)
      (Millis 150) None Store.sample_store
      = Some (r1, Store.sample_store ++ new1) /\
    @Store.resolveVersion decimal_locale (Store.Ref 2%nat) (Millis 160)
      (Millis 150) None (Store.sample_store ++ new1)
      = Some (r2, (Store.sample_store ++ new1) ++ new2) /\
    ((Store.sample_store ++ new1) ++ new2) !! r1 = Some (Store.CResult res1) /\
    ((Store.sample_store ++ new1) ++ new2) !! r2 = Some (Store.CResult res2) /\
    (forall l, In l (r1 :: Store.result_arrays res1) ->
               ~ In l (r2 :: Store.result_arrays res2)) /\
    Store.read_result ((Store.sample_store ++ new1) ++ new2) r1
      = Some (@resolveVersion decimal_locale (VArray [v2; v1]) (Millis 160)
                (Millis 150) None) /\
    Store.read_result ((Store.sample_store ++ new1) ++ new2) r2
      = Some (@resolveVersion decimal_locale (VArray [v2; v1]) (Millis 160)
                (Millis 150) None).
Proof.
  split; [reflexivity|].
  apply (@second_call_builds_another_result decimal_locale Store.sample_store
           (Store.Ref 2%nat) (VArray [v2; v1]) (Millis 160) (Millis 150) None).
  reflexivity.
Defined.

(** A shifted start that falls on the publish date sets [wasAdjusted]
    although nothing was adjusted. *)
Example start_on_publish_date_counts_as_adjusted :
  DateCalculator.applyShiftAndValidate sample_shift 250
  = Some {| DateCalculator.startDate := 250;
            DateCalculator.endDate := 350;
            DateCalculator.startTimestamp := 250;
            DateCalculator.endTimestamp := 350;
            DateCalculator.f_publishDate := 250;
            DateCalculator.wasAdjusted := true |}.
Proof. reflexivity. Qed.

(** Before the epoch a shift by half a millisecond can change the length
    of the period: from -1 .. 0 to 0 .. 0. *)
Example half_shift_across_epoch :
  DateCalculator.applyShiftAndValidate
    {| DateCalculator.shift2 := 1;
       DateCalculator.originalStart := -1;
       DateCalculator.originalEnd := 0;
       DateCalculator.originalDuration := 1;
       DateCalculator.originalMidpoint2 := -1;
       DateCalculator.newMidpoint := 0 |} (-10)
  = Some {| DateCalculator.startDate := 0;
            DateCalculator.endDate := 0;
            DateCalculator.startTimestamp := 0;
            DateCalculator.endTimestamp := 0;
            DateCalculator.f_publishDate := -10;
            DateCalculator.wasAdjusted := false |}.
Proof. reflexivity. Qed.

(** A column dragged to start before the publish date takes the publish
    date along. *)
Example precise_drop_before_publication :
  let r := @DateCalculator.calculatePreciseDropDates plain_axis (20, 120)
             sample_period in
  DateCalculator.p_startTimestamp r = Some 20 /\
  DateCalculator.p_endTimestamp r = Some 120 /\
  DateCalculator.publishTimestamp r = Some 20 /\
  DateCalculator.publishDateWasUpdated r = true.
Proof. by repeat split. Qed.

(** A start without a valid date leaves the publish date alone. *)
Example precise_drop_invalid_start :
  let r := @DateCalculator.calculatePreciseDropDates plain_axis
             (max_time + 1, 120) sample_period in
  DateCalculator.p_startTimestamp r = None /\
  DateCalculator.publishTimestamp r = Some 50 /\
  DateCalculator.publishDateWasUpdated r = false.
Proof. by repeat split. Qed.

(** Beyond the range of exact arithmetic the calculator's embedding gives
    no answer. *)
Example shift_out_of_range :
  DateCalculator.applyShiftAndValidate sample_shift (2 ^ 50) = None.
Proof. reflexivity. Qed.
